(** * CodeJanitor voice pipeline: the command coordinator and its three
      mock engines

    A shallow embedding of [my-app/src/services/voiceService.ts]
    (class [VoiceService]) and [src/mocks/runanywhere-voice.ts] (classes
    [WhisperSTT], [PiperTTS], [VoiceActivityDetector]).

    Conventions of the embedding.
    - JavaScript strings are Rocq [string]s (byte strings); [toLowerCase],
      [toUpperCase] and [trim] act on the ASCII range.
    - JavaScript numbers are exact rationals [Q]; the virtual clock, timer
      delays and confidences are all in [Q].
    - [setTimeout]/[setInterval] are a timer queue inside the world state;
      a callback closure is a constructor of [TimerAction] carrying what the
      closure captured.
    - Object fields are record fields with the source's names; a method is
      a computation in the monad [M] (state plus JavaScript exceptions).
    - The callbacks a UI may attach to the coordinator ([onStateChange],
      [onTranscript], [onCommand], [onThoughtAdded], [onTTSStatusChange])
      are recorded in an event log, as are the invocations of the callbacks
      registered in the engines.  [console.log] output is not modelled.
    - [Math.random()] draws are arguments of the operation that uses them. *)

From Stdlib Require Import List String Ascii Bool Arith ZArith QArith.
From Stdlib Require Import Qabs Qminmax Qround Lia Lqa DecimalString.
Import ListNotations.

Local Open Scope list_scope.
Local Open Scope string_scope.
Local Open Scope nat_scope.

(* ================================================================== *)
(** * JavaScript string primitives used by the source *)
(* ================================================================== *)

Definition isUpper (c : ascii) : bool :=
  let n := nat_of_ascii c in (65 <=? n) && (n <=? 90).

Definition isLower (c : ascii) : bool :=
  let n := nat_of_ascii c in (97 <=? n) && (n <=? 122).

Definition lowerChar (c : ascii) : ascii :=
  if isUpper c then ascii_of_nat (nat_of_ascii c + 32) else c.

Definition upperChar (c : ascii) : ascii :=
  if isLower c then ascii_of_nat (nat_of_ascii c - 32) else c.

Fixpoint mapString (f : ascii -> ascii) (s : string) : string :=
  match s with
  | EmptyString => EmptyString
  | String c s' => String (f c) (mapString f s')
  end.

(** [String.prototype.toLowerCase] / [toUpperCase]. *)
Definition toLowerCase (s : string) : string := mapString lowerChar s.
Definition toUpperCase (s : string) : string := mapString upperChar s.

(** White space removed by [String.prototype.trim] (ASCII range): TAB, LF,
    VT, FF, CR and SPACE. *)
Definition isWhiteSpace (c : ascii) : bool :=
  let n := nat_of_ascii c in ((9 <=? n) && (n <=? 13)) || (n =? 32).

Fixpoint trimStart (s : string) : string :=
  match s with
  | EmptyString => EmptyString
  | String c s' => if isWhiteSpace c then trimStart s' else s
  end.

Fixpoint trimEnd (s : string) : string :=
  match s with
  | EmptyString => EmptyString
  | String c s' =>
      match trimEnd s' with
      | EmptyString => if isWhiteSpace c then EmptyString else String c EmptyString
      | t => String c t
      end
  end.

Definition trim (s : string) : string := trimEnd (trimStart s).

(** [s.includes(kw)]: [kw] occurs in [s] as a contiguous substring. *)
Fixpoint includes (s kw : string) : bool :=
  String.prefix kw s ||
  match s with
  | EmptyString => false
  | String _ s' => includes s' kw
  end.

(** [s.split(sep)] for a one-character separator (the only use in the
    source is [split(' ')]); the result is never empty. *)
Fixpoint split (sep : ascii) (s : string) : list string :=
  match s with
  | EmptyString => [EmptyString]
  | String c s' =>
      if Ascii.eqb c sep then EmptyString :: split sep s'
      else match split sep s' with
           | w :: ws => String c w :: ws
           | [] => [String c EmptyString]
           end
  end.

Definition space : ascii := " "%char.

(** The double-quote character, for the template strings that contain it. *)
Definition dquote : string := String (ascii_of_nat 34) EmptyString.

(** [Number.prototype.toFixed(0)]: the nearest integer to the absolute
    value, the larger one on a tie, printed in decimal with its sign. *)
Definition toFixed0 (x : Q) : string :=
  let a := Qabs x in
  let n := Qfloor (a + (1 # 2))%Q in
  let digits := NilZero.string_of_uint (N.to_uint (Z.to_N n)) in
  if Qlt_le_dec x 0%Q then
    (if (n =? 0)%Z then digits else "-" ++ digits)
  else digits.

(* ================================================================== *)
(** * Types of [src/types] used by the voice pipeline *)
(* ================================================================== *)

(** [VoiceListeningState]. *)
Inductive VoiceListeningState : Type :=
| idle | listening | processing | speaking | error.

(** [VoiceCommand['intent']]. *)
Inductive Intent : Type :=
| intent_audit | intent_scan | intent_explain | intent_report
| intent_stop | intent_help | intent_unknown.

(** [AgentThought['type']]. *)
Inductive ThoughtType : Type :=
| th_info | th_processing | th_success | th_error | th_warning.

(** The status argument of a [TTSCallback]. *)
Inductive TTSStatus : Type := tts_started | tts_finished | tts_error.

Definition state_eqb (a b : VoiceListeningState) : bool :=
  match a, b with
  | idle, idle | listening, listening | processing, processing
  | speaking, speaking | error, error => true
  | _, _ => false
  end.

Definition intent_eqb (a b : Intent) : bool :=
  match a, b with
  | intent_audit, intent_audit | intent_scan, intent_scan
  | intent_explain, intent_explain | intent_report, intent_report
  | intent_stop, intent_stop | intent_help, intent_help
  | intent_unknown, intent_unknown => true
  | _, _ => false
  end.

(** The string value of an intent (the TypeScript literal). *)
Definition intent_name (i : Intent) : string :=
  match i with
  | intent_audit => "audit" | intent_scan => "scan"
  | intent_explain => "explain" | intent_report => "report"
  | intent_stop => "stop" | intent_help => "help"
  | intent_unknown => "unknown"
  end.

Record STTConfig : Type := {
  stt_modelId : string;
  stt_modelName : string;
  language : string;
  vadEnabled : bool;
  vadSilenceMs : Q;
  maxRecordingMs : Q
}.

Record TTSConfig : Type := {
  tts_modelId : string;
  tts_modelName : string;
  voice : string;
  speed : Q;
  pitch : Q
}.

Record VoiceState : Type := {
  vs_isListening : bool;
  vs_isSpeaking : bool;
  vs_isProcessing : bool;
  vs_state : VoiceListeningState;
  vs_vadActive : bool;
  vs_error : option string
}.

Record TranscriptResult : Type := {
  tr_text : string;
  tr_confidence : Q;
  tr_isFinal : bool;
  tr_timestamp : Q;
  tr_language : string
}.

Record VoiceCommand : Type := {
  cmd_keyword : string;
  cmd_intent : Intent;
  cmd_rawTranscript : string;
  cmd_confidence : Q
}.

(* ================================================================== *)
(** * [voiceService.ts]: constants *)
(* ================================================================== *)

Definition DEFAULT_STT_CONFIG : STTConfig := {|
  stt_modelId := "whisper-tiny-en";
  stt_modelName := "Whisper Tiny English";
  language := "en";
  vadEnabled := true;
  vadSilenceMs := 1500;
  maxRecordingMs := 30000
|}.

Definition DEFAULT_TTS_CONFIG : TTSConfig := {|
  tts_modelId := "piper-en_US-lessac-medium";
  tts_modelName := "Piper Lessac Medium";
  voice := "en_US-lessac-medium";
  speed := 1;
  pitch := 1
|}.

(** [COMMAND_KEYWORDS], in the order [Object.entries] enumerates it: none of
    the keys is an array index, so this is the order of the literal. *)
Definition COMMAND_KEYWORDS : list (string * Intent) :=
  [ ("audit", intent_audit);
    ("scan", intent_scan);
    ("vulnerabilities", intent_scan);
    ("vulnerability", intent_scan);
    ("explain", intent_explain);
    ("describe", intent_explain);
    ("report", intent_report);
    ("summary", intent_report);
    ("stop", intent_stop);
    ("cancel", intent_stop);
    ("help", intent_help);
    ("commands", intent_help) ].

(** The keyword loop of [parseAndDispatchCommand]: [matchedIntent] and
    [matchedKeyword] start as ['unknown'] and [''], and the first entry whose
    keyword [lower] includes sets both and breaks. *)
Fixpoint scanKeywords (lower : string) (entries : list (string * Intent))
  : Intent * string :=
  match entries with
  | [] => (intent_unknown, "")
  | (keyword, intent) :: rest =>
      if includes lower keyword then (intent, keyword)
      else scanKeywords lower rest
  end.

(** Lines 270-280 of [parseAndDispatchCommand]: the intent and keyword
    matched for a transcript. *)
Definition matchCommand (transcript : string) : Intent * string :=
  let lower := trim (toLowerCase transcript) in
  scanKeywords lower COMMAND_KEYWORDS.

(* ================================================================== *)
(** * [runanywhere-voice.ts]: configuration records and constants *)
(* ================================================================== *)

Record WhisperConfig : Type := { wc_modelId : string; wc_language : string }.

Record PiperConfig : Type := {
  pc_modelId : string; pc_voice : string; pc_speed : Q; pc_pitch : Q
}.

Record VADConfig : Type := {
  silenceThresholdMs : Q; speechThresholdDb : Q
}.

Record MockTranscript : Type := {
  mock_text : string; mock_intent : string; mock_delay : Q
}.

Definition MOCK_TRANSCRIPTS : list MockTranscript :=
  [ {| mock_text := "audit the repository"; mock_intent := "audit"; mock_delay := 2000 |};
    {| mock_text := "scan for vulnerabilities"; mock_intent := "scan"; mock_delay := 2500 |};
    {| mock_text := "explain the security findings"; mock_intent := "explain"; mock_delay := 3000 |};
    {| mock_text := "generate security report"; mock_intent := "report"; mock_delay := 2200 |};
    {| mock_text := "help me with commands"; mock_intent := "help"; mock_delay := 1800 |};
    {| mock_text := "stop listening"; mock_intent := "stop"; mock_delay := 1500 |} ].

(* ================================================================== *)
(** * The world: engines, coordinator, timers, closures and the log *)
(* ================================================================== *)

(** The closures ever stored in the engines' callback slots: the three
    arrow functions [VoiceService.initialize] installs. *)
Inductive TranscriptCallback : Type := VoiceService_onTranscript.
Inductive TTSCallback : Type := VoiceService_onStatus.
Inductive VADCallback : Type := VoiceService_onVAD.

(** What runs when the promise returned by [PiperTTS.speak] resolves:
    nothing, or the rest of [VoiceService.speakAnalysis] after its
    [await this.tts.speak(text)]. *)
Inductive Continuation : Type := k_none | k_speakAnalysis.

(** The callback closures handed to [setTimeout]/[setInterval], with the
    variables each one captured.
    - [stt_interim]: the arrow function of the loop in
      [WhisperSTT.startListening]; [closure] names the call's shared
      [partialText] variable.
    - [stt_final]: the final-result arrow function; [rnd] is the
      [Math.random()] draw it makes when it runs.
    - [tts_done]: the arrow function of [PiperTTS.speak].
    - [vad_poll]: the interval function of [VoiceActivityDetector.start]
      with its own [speechDetected] variable.
    - [svc_maxRecording], [svc_processingDone]: the two arrow functions of
      [VoiceService]. *)
Inductive TimerAction : Type :=
| stt_interim (closure : nat) (words : list string) (wordIndex : nat)
| stt_final (mock : MockTranscript) (rnd : Q)
| tts_done (resolve : Continuation)
| vad_poll (speechDetected : bool)
| svc_maxRecording
| svc_processingDone.

Record Timer : Type := {
  timer_id : nat;
  timer_due : Q;
  timer_period : option Q;       (* [Some p] for [setInterval] *)
  timer_action : TimerAction
}.

Record WhisperSTT : Type := {
  stt_initialized : bool;
  stt_isListening : bool;
  stt_onTranscript : option TranscriptCallback;
  stt_currentTimeout : option nat;
  stt_interimTimeout : option nat
}.

Record PiperTTS : Type := {
  tts_initialized : bool;
  tts_isSpeaking : bool;
  tts_onStatus : option TTSCallback;
  tts_currentTimeout : option nat
}.

Record VoiceActivityDetector : Type := {
  vad_initialized : bool;
  vad_isActive : bool;
  vad_onVAD : option VADCallback;
  vad_simulationInterval : option nat
}.

Record VoiceService : Type := {
  sttConfig : STTConfig;
  ttsConfig : TTSConfig;
  isInitialized : bool;
  currentState : VoiceListeningState;
  recordingTimeout : option nat
}.

(** Events observable from outside: the coordinator's public callbacks and
    the invocations of the callbacks registered in the engines. *)
Inductive Event : Type :=
| ev_thought (message : string) (type : ThoughtType)
| ev_stateChange (voiceState : VoiceState)
| ev_transcript (result : TranscriptResult)
| ev_command (command : VoiceCommand)
| ev_ttsStatusChange (isSpeaking : bool)
| ev_sttCallback (text : string) (confidence : Q) (isFinal : bool)
| ev_ttsCallback (status : TTSStatus)
| ev_vadCallback (isSpeaking : bool).

Record World : Type := {
  stt : WhisperSTT;
  tts : PiperTTS;
  vad : VoiceActivityDetector;
  svc : VoiceService;
  clock : Q;                               (* virtual time, ms *)
  nextTimerId : nat;
  timers : list Timer;                     (* pending, in scheduling order *)
  partialText : list (nat * string);       (* [partialText] of each call *)
  log : list (Q * Event)                   (* oldest first *)
}.

Definition set_stt (x : WhisperSTT) (w : World) : World :=
  {| stt := x; tts := tts w; vad := vad w; svc := svc w; clock := clock w;
     nextTimerId := nextTimerId w; timers := timers w;
     partialText := partialText w; log := log w |}.

Definition set_tts (x : PiperTTS) (w : World) : World :=
  {| stt := stt w; tts := x; vad := vad w; svc := svc w; clock := clock w;
     nextTimerId := nextTimerId w; timers := timers w;
     partialText := partialText w; log := log w |}.

Definition set_vad (x : VoiceActivityDetector) (w : World) : World :=
  {| stt := stt w; tts := tts w; vad := x; svc := svc w; clock := clock w;
     nextTimerId := nextTimerId w; timers := timers w;
     partialText := partialText w; log := log w |}.

Definition set_svc (x : VoiceService) (w : World) : World :=
  {| stt := stt w; tts := tts w; vad := vad w; svc := x; clock := clock w;
     nextTimerId := nextTimerId w; timers := timers w;
     partialText := partialText w; log := log w |}.

Definition set_clock (x : Q) (w : World) : World :=
  {| stt := stt w; tts := tts w; vad := vad w; svc := svc w; clock := x;
     nextTimerId := nextTimerId w; timers := timers w;
     partialText := partialText w; log := log w |}.

Definition set_nextTimerId (x : nat) (w : World) : World :=
  {| stt := stt w; tts := tts w; vad := vad w; svc := svc w; clock := clock w;
     nextTimerId := x; timers := timers w;
     partialText := partialText w; log := log w |}.

Definition set_timers (x : list Timer) (w : World) : World :=
  {| stt := stt w; tts := tts w; vad := vad w; svc := svc w; clock := clock w;
     nextTimerId := nextTimerId w; timers := x;
     partialText := partialText w; log := log w |}.

Definition set_partialText (x : list (nat * string)) (w : World) : World :=
  {| stt := stt w; tts := tts w; vad := vad w; svc := svc w; clock := clock w;
     nextTimerId := nextTimerId w; timers := timers w;
     partialText := x; log := log w |}.

Definition set_log (x : list (Q * Event)) (w : World) : World :=
  {| stt := stt w; tts := tts w; vad := vad w; svc := svc w; clock := clock w;
     nextTimerId := nextTimerId w; timers := timers w;
     partialText := partialText w; log := x |}.

(* ------------------------------------------------------------------ *)
(** ** The monad of methods: world state plus JavaScript exceptions *)

(** A thrown value: an [Error] instance with its [message], or anything
    else ([error instanceof Error] is false). *)
Inductive Thrown : Type := JsError (message : string) | JsOther.

Inductive Res (A : Type) : Type :=
| Ok (a : A)
| Throw (e : Thrown).
Arguments Ok {A} a.
Arguments Throw {A} e.

(** A method body: it returns or throws, and in both cases leaves the
    world as its assignments made it (nothing is rolled back). *)
Definition M (A : Type) : Type := World -> Res A * World.

Definition ret {A} (a : A) : M A := fun w => (Ok a, w).

Definition bind {A B} (c : M A) (k : A -> M B) : M B :=
  fun w => match c w with
           | (Ok a, w') => k a w'
           | (Throw e, w') => (Throw e, w')
           end.

Definition throw {A} (e : Thrown) : M A := fun w => (Throw e, w).

(** [try { body } catch (error) { handler }]. *)
Definition try_catch {A} (body : M A) (handler : Thrown -> M A) : M A :=
  fun w => match body w with
           | (Ok a, w') => (Ok a, w')
           | (Throw e, w') => handler e w'
           end.

Definition gets {A} (f : World -> A) : M A := fun w => (Ok (f w), w).
Definition modify (f : World -> World) : M unit := fun w => (Ok tt, f w).

Declare Scope js_scope.
Delimit Scope js_scope with js.
Notation "x <- c ;; k" := (bind c (fun x => k))
  (at level 61, c at next level, right associativity) : js_scope.
Notation "c ;; k" := (bind c (fun _ => k))
  (at level 61, right associativity) : js_scope.
Local Open Scope js_scope.

Definition when (b : bool) (c : M unit) : M unit :=
  if b then c else ret tt.

Fixpoint forEach {A} (l : list A) (body : A -> M unit) : M unit :=
  match l with
  | [] => ret tt
  | x :: rest => body x ;; forEach rest body
  end.

Definition exec {A} (c : M A) (w : World) : World := snd (c w).
Definition result {A} (c : M A) (w : World) : Res A := fst (c w).

(** [error instanceof Error ? error.message : fallback]. *)
Definition messageOf (e : Thrown) (fallback : string) : string :=
  match e with JsError m => m | JsOther => fallback end.

(* ------------------------------------------------------------------ *)
(** ** Timers *)

Definition emit (e : Event) : M unit :=
  modify (fun w => set_log (log w ++ [(clock w, e)])%list w).

Definition schedule (period : option Q) (action : TimerAction) (delay : Q)
  : M nat :=
  fun w =>
    let id := nextTimerId w in
    let tm := {| timer_id := id; timer_due := (clock w + delay)%Q;
                 timer_period := period; timer_action := action |} in
    (Ok id, set_timers (timers w ++ [tm])%list (set_nextTimerId (S id) w)).

Definition setTimeout (action : TimerAction) (delay : Q) : M nat :=
  schedule None action delay.

Definition setInterval (action : TimerAction) (period : Q) : M nat :=
  schedule (Some period) action period.

Definition cancel (id : nat) (l : list Timer) : list Timer :=
  filter (fun tm => negb (timer_id tm =? id)) l.

(** [if (handle) clearTimeout(handle)] (and the same with
    [clearInterval]): an unset handle is skipped, and clearing a handle
    whose timer is gone does nothing. *)
Definition clearTimeout (handle : option nat) : M unit :=
  match handle with
  | None => ret tt
  | Some id => modify (fun w => set_timers (cancel id (timers w)) w)
  end.

Definition clearInterval := clearTimeout.

(* ================================================================== *)
(** * [VoiceService]: private helpers and the closures it installs *)
(* ================================================================== *)

(** [addThought]: the thought goes to [onThoughtAdded] (its [id] and
    [timestamp] are not kept). *)
Definition addThought (message : string) (type : ThoughtType) : M unit :=
  emit (ev_thought message type).

Definition set_currentState (s : VoiceListeningState) (w : World) : World :=
  set_svc {| sttConfig := sttConfig (svc w); ttsConfig := ttsConfig (svc w);
             isInitialized := isInitialized (svc w); currentState := s;
             recordingTimeout := recordingTimeout (svc w) |} w.

Definition set_isInitialized (b : bool) (w : World) : World :=
  set_svc {| sttConfig := sttConfig (svc w); ttsConfig := ttsConfig (svc w);
             isInitialized := b; currentState := currentState (svc w);
             recordingTimeout := recordingTimeout (svc w) |} w.

Definition set_recordingTimeout (h : option nat) (w : World) : World :=
  set_svc {| sttConfig := sttConfig (svc w); ttsConfig := ttsConfig (svc w);
             isInitialized := isInitialized (svc w);
             currentState := currentState (svc w);
             recordingTimeout := h |} w.

(** [updateState]. *)
Definition updateState (state : VoiceListeningState) : M unit :=
  modify (set_currentState state) ;;
  vadActive <- gets (fun w => vad_isActive (vad w)) ;;
  let voiceState := {|
    vs_isListening := state_eqb state listening;
    vs_isSpeaking := state_eqb state speaking;
    vs_isProcessing := state_eqb state processing;
    vs_state := state;
    vs_vadActive := vadActive;
    vs_error := if state_eqb state error then Some "Voice pipeline error"
                else None
  |} in
  emit (ev_stateChange voiceState).

(** [parseAndDispatchCommand]. *)
Definition parseAndDispatchCommand (transcript : string) (confidence : Q)
  : M unit :=
  let '(matchedIntent, matchedKeyword) := matchCommand transcript in
  let command := {| cmd_keyword := matchedKeyword;
                    cmd_intent := matchedIntent;
                    cmd_rawTranscript := transcript;
                    cmd_confidence := confidence |} in
  (if intent_eqb matchedIntent intent_unknown then
     addThought ("Unrecognized command: " ++ dquote ++ transcript ++ dquote)
                th_warning
   else
     addThought ("🗣 Command detected: ["
                 ++ toUpperCase (intent_name matchedIntent) ++ "] "
                 ++ dquote ++ transcript ++ dquote) th_success) ;;
  updateState processing ;;
  emit (ev_command command) ;;
  _ <- setTimeout svc_processingDone 500 ;;
  ret tt.

(** The arrow function given to [stt.setOnTranscript]. *)
Definition onTranscript_closure (text : string) (confidence : Q)
  (isFinal : bool) : M unit :=
  now <- gets clock ;;
  lang <- gets (fun w => language (sttConfig (svc w))) ;;
  emit (ev_transcript {| tr_text := text; tr_confidence := confidence;
                         tr_isFinal := isFinal; tr_timestamp := now;
                         tr_language := lang |}) ;;
  when isFinal
    (addThought ("Transcript: " ++ dquote ++ text ++ dquote
                 ++ " (confidence: " ++ toFixed0 (confidence * 100)%Q ++ "%)")
                th_info ;;
     parseAndDispatchCommand text confidence).

(** The arrow function given to [tts.setOnStatus]. *)
Definition onStatus_closure (status : TTSStatus) : M unit :=
  let isSpeaking := match status with tts_started => true | _ => false end in
  emit (ev_ttsStatusChange isSpeaking) ;;
  updateState (if isSpeaking then speaking else idle).

(** The arrow function given to [vad.setOnVAD]. *)
Definition onVAD_closure (isSpeaking : bool) : M unit :=
  st <- gets (fun w => currentState (svc w)) ;;
  when (negb isSpeaking && state_eqb st listening)
    (addThought "VAD: Silence detected, processing..." th_info).

(** The [finally] block of [speakAnalysis]. *)
Definition speakAnalysis_finally : M unit :=
  st <- gets (fun w => currentState (svc w)) ;;
  when (state_eqb st speaking) (updateState idle).

(** What a resolved [speak] promise resumes. *)
Definition resume (k : Continuation) : M unit :=
  match k with
  | k_none => ret tt
  | k_speakAnalysis =>
      addThought "✓ Finished speaking" th_success ;;
      speakAnalysis_finally
  end.

(** Calling a stored engine callback: [if (this.onX) this.onX(...)]. *)
Definition call_onTranscript (text : string) (confidence : Q)
  (isFinal : bool) : M unit :=
  cb <- gets (fun w => stt_onTranscript (stt w)) ;;
  match cb with
  | Some VoiceService_onTranscript =>
      emit (ev_sttCallback text confidence isFinal) ;;
      onTranscript_closure text confidence isFinal
  | None => ret tt
  end.

Definition call_onStatus (status : TTSStatus) : M unit :=
  cb <- gets (fun w => tts_onStatus (tts w)) ;;
  match cb with
  | Some VoiceService_onStatus =>
      emit (ev_ttsCallback status) ;;
      onStatus_closure status
  | None => ret tt
  end.

Definition call_onVAD (isSpeaking : bool) : M unit :=
  cb <- gets (fun w => vad_onVAD (vad w)) ;;
  match cb with
  | Some VoiceService_onVAD =>
      emit (ev_vadCallback isSpeaking) ;;
      onVAD_closure isSpeaking
  | None => ret tt
  end.

(* ================================================================== *)
(** * [WhisperSTT] *)
(* ================================================================== *)

Definition set_stt_initialized (b : bool) (w : World) : World :=
  set_stt {| stt_initialized := b; stt_isListening := stt_isListening (stt w);
             stt_onTranscript := stt_onTranscript (stt w);
             stt_currentTimeout := stt_currentTimeout (stt w);
             stt_interimTimeout := stt_interimTimeout (stt w) |} w.

Definition set_stt_isListening (b : bool) (w : World) : World :=
  set_stt {| stt_initialized := stt_initialized (stt w); stt_isListening := b;
             stt_onTranscript := stt_onTranscript (stt w);
             stt_currentTimeout := stt_currentTimeout (stt w);
             stt_interimTimeout := stt_interimTimeout (stt w) |} w.

Definition set_stt_onTranscript (cb : option TranscriptCallback) (w : World)
  : World :=
  set_stt {| stt_initialized := stt_initialized (stt w);
             stt_isListening := stt_isListening (stt w);
             stt_onTranscript := cb;
             stt_currentTimeout := stt_currentTimeout (stt w);
             stt_interimTimeout := stt_interimTimeout (stt w) |} w.

Definition set_stt_currentTimeout (h : option nat) (w : World) : World :=
  set_stt {| stt_initialized := stt_initialized (stt w);
             stt_isListening := stt_isListening (stt w);
             stt_onTranscript := stt_onTranscript (stt w);
             stt_currentTimeout := h;
             stt_interimTimeout := stt_interimTimeout (stt w) |} w.

Definition set_stt_interimTimeout (h : option nat) (w : World) : World :=
  set_stt {| stt_initialized := stt_initialized (stt w);
             stt_isListening := stt_isListening (stt w);
             stt_onTranscript := stt_onTranscript (stt w);
             stt_currentTimeout := stt_currentTimeout (stt w);
             stt_interimTimeout := h |} w.

(** [WhisperSTT.initialize]; the simulated 800 ms loading delay is not
    modelled. *)
Definition stt_initialize (config : WhisperConfig) : M bool :=
  modify (set_stt_initialized true) ;;
  ret true.

Definition stt_setOnTranscript (callback : TranscriptCallback) : M unit :=
  modify (set_stt_onTranscript (Some callback)).

Fixpoint lookupText (closure : nat) (l : list (nat * string)) : string :=
  match l with
  | [] => ""
  | (k, v) :: rest => if k =? closure then v else lookupText closure rest
  end.

Fixpoint storeText (closure : nat) (s : string) (l : list (nat * string))
  : list (nat * string) :=
  match l with
  | [] => []
  | (k, v) :: rest =>
      if k =? closure then (k, s) :: rest
      else (k, v) :: storeText closure s rest
  end.

(** [let partialText = ''] of one [startListening] call: a fresh cell. *)
Definition newPartialText : M nat :=
  fun w =>
    let closure := List.length (partialText w) in
    (Ok closure, set_partialText (partialText w ++ [(closure, "")])%list w).

(** [0.5 + (wordIndex / words.length) * 0.3]. *)
Definition interimConfidence (wordIndex len : nat) : Q :=
  ((5 # 10) + (inject_Z (Z.of_nat wordIndex) / inject_Z (Z.of_nat len))
              * (3 # 10))%Q.

(** [0.92 + Math.random() * 0.07]. *)
Definition finalConfidence (rnd : Q) : Q :=
  ((92 # 100) + rnd * (7 # 100))%Q.

(** The body of the interim [setTimeout] arrow function. *)
Definition stt_interimCallback (closure : nat) (words : list string)
  (wordIndex : nat) : M unit :=
  isL <- gets (fun w => stt_isListening (stt w)) ;;
  if negb isL then ret tt
  else
    old <- gets (fun w => lookupText closure (partialText w)) ;;
    let new := old ++ (if 0 <? wordIndex then " " else "")
                   ++ nth wordIndex words "undefined" in
    modify (fun w => set_partialText
                       (storeText closure new (partialText w)) w) ;;
    call_onTranscript new (interimConfidence wordIndex (List.length words)) false.

(** The body of the final [setTimeout] arrow function. *)
Definition stt_finalCallback (mock : MockTranscript) (rnd : Q) : M unit :=
  isL <- gets (fun w => stt_isListening (stt w)) ;;
  if negb isL then ret tt
  else
    call_onTranscript (mock_text mock) (finalConfidence rnd) true ;;
    modify (set_stt_isListening false).

(** [MOCK_TRANSCRIPTS[Math.floor(Math.random() * MOCK_TRANSCRIPTS.length)]]
    for the draw [rnd]. *)
Definition pickMock (rnd : Q) : option MockTranscript :=
  nth_error MOCK_TRANSCRIPTS
    (Z.to_nat (Qfloor (rnd * inject_Z (Z.of_nat (List.length MOCK_TRANSCRIPTS))))).

(** The [for] loop of [startListening]: one interim timer per word, each
    handle overwriting [interimTimeout]. *)
Definition scheduleInterims (closure : nat) (words : list string) : M unit :=
  forEach (seq 0 (List.length words))
    (fun i =>
       id <- setTimeout (stt_interim closure words i)
                        (400 + inject_Z (Z.of_nat i) * 350)%Q ;;
       modify (set_stt_interimTimeout (Some id))).

(** [WhisperSTT.startListening]; [rndPhrase] and [rndConf] are the two
    [Math.random()] draws (the second is made by the final callback). *)
Definition stt_startListening (rndPhrase rndConf : Q) : M unit :=
  init <- gets (fun w => stt_initialized (stt w)) ;;
  if negb init then throw (JsError "WhisperSTT not initialized")
  else
    isL <- gets (fun w => stt_isListening (stt w)) ;;
    if isL then ret tt
    else
      modify (set_stt_isListening true) ;;
      match pickMock rndPhrase with
      | None =>
          throw (JsError
                   "Cannot read properties of undefined (reading 'text')")
      | Some mock =>
          let words := split space (mock_text mock) in
          closure <- newPartialText ;;
          scheduleInterims closure words ;;
          id <- setTimeout (stt_final mock rndConf) (mock_delay mock) ;;
          modify (set_stt_currentTimeout (Some id))
      end.

(** [WhisperSTT.stopListening]. *)
Definition stt_stopListening : M unit :=
  modify (set_stt_isListening false) ;;
  h <- gets (fun w => stt_currentTimeout (stt w)) ;;
  clearTimeout h ;;
  h' <- gets (fun w => stt_interimTimeout (stt w)) ;;
  clearTimeout h'.

Definition stt_getIsListening : M bool :=
  gets (fun w => stt_isListening (stt w)).

(** [WhisperSTT.destroy]. *)
Definition stt_destroy : M unit :=
  stt_stopListening ;;
  modify (set_stt_initialized false).

(* ================================================================== *)
(** * [PiperTTS] *)
(* ================================================================== *)

Definition set_tts_initialized (b : bool) (w : World) : World :=
  set_tts {| tts_initialized := b; tts_isSpeaking := tts_isSpeaking (tts w);
             tts_onStatus := tts_onStatus (tts w);
             tts_currentTimeout := tts_currentTimeout (tts w) |} w.

Definition set_tts_isSpeaking (b : bool) (w : World) : World :=
  set_tts {| tts_initialized := tts_initialized (tts w); tts_isSpeaking := b;
             tts_onStatus := tts_onStatus (tts w);
             tts_currentTimeout := tts_currentTimeout (tts w) |} w.

Definition set_tts_onStatus (cb : option TTSCallback) (w : World) : World :=
  set_tts {| tts_initialized := tts_initialized (tts w);
             tts_isSpeaking := tts_isSpeaking (tts w);
             tts_onStatus := cb;
             tts_currentTimeout := tts_currentTimeout (tts w) |} w.

Definition set_tts_currentTimeout (h : option nat) (w : World) : World :=
  set_tts {| tts_initialized := tts_initialized (tts w);
             tts_isSpeaking := tts_isSpeaking (tts w);
             tts_onStatus := tts_onStatus (tts w);
             tts_currentTimeout := h |} w.

(** [PiperTTS.initialize]; the simulated 600 ms delay is not modelled. *)
Definition tts_initialize (config : PiperConfig) : M bool :=
  modify (set_tts_initialized true) ;;
  ret true.

Definition tts_setOnStatus (callback : TTSCallback) : M unit :=
  modify (set_tts_onStatus (Some callback)).

(** [PiperTTS.stop]. *)
Definition tts_stop : M unit :=
  h <- gets (fun w => tts_currentTimeout (tts w)) ;;
  clearTimeout h ;;
  modify (set_tts_isSpeaking false) ;;
  call_onStatus tts_finished.

(** [text.split(' ').length]. *)
Definition wordCount (text : string) : nat :=
  List.length (split space text).

(** [Math.max(1000, (wordCount / 150) * 60 * 1000)]. *)
Definition durationMs (wordCount : nat) : Q :=
  Qmax 1000 ((inject_Z (Z.of_nat wordCount) / 150) * 60 * 1000)%Q.

(** [Math.min(durationMs, 5000)]. *)
Definition cappedDuration (wordCount : nat) : Q :=
  Qmin (durationMs wordCount) 5000.

(** The body of the [setTimeout] arrow function of [speak]; [resolve()]
    lets the awaiting caller continue once the callback has returned. *)
Definition tts_timeoutCallback (resolve : Continuation) : M unit :=
  modify (set_tts_isSpeaking false) ;;
  call_onStatus tts_finished ;;
  resume resolve.

(** [PiperTTS.speak] up to the point where it returns its pending
    promise; [resolve] is what awaits that promise. *)
Definition tts_speak (text : string) (resolve : Continuation) : M unit :=
  init <- gets (fun w => tts_initialized (tts w)) ;;
  if negb init then throw (JsError "PiperTTS not initialized")
  else
    sp <- gets (fun w => tts_isSpeaking (tts w)) ;;
    when sp tts_stop ;;
    modify (set_tts_isSpeaking true) ;;
    call_onStatus tts_started ;;
    id <- setTimeout (tts_done resolve) (cappedDuration (wordCount text)) ;;
    modify (set_tts_currentTimeout (Some id)).

Definition tts_getIsSpeaking : M bool :=
  gets (fun w => tts_isSpeaking (tts w)).

(** [PiperTTS.destroy]. *)
Definition tts_destroy : M unit :=
  tts_stop ;;
  modify (set_tts_initialized false).

(* ================================================================== *)
(** * [VoiceActivityDetector] *)
(* ================================================================== *)

Definition set_vad_initialized (b : bool) (w : World) : World :=
  set_vad {| vad_initialized := b; vad_isActive := vad_isActive (vad w);
             vad_onVAD := vad_onVAD (vad w);
             vad_simulationInterval := vad_simulationInterval (vad w) |} w.

Definition set_vad_isActive (b : bool) (w : World) : World :=
  set_vad {| vad_initialized := vad_initialized (vad w); vad_isActive := b;
             vad_onVAD := vad_onVAD (vad w);
             vad_simulationInterval := vad_simulationInterval (vad w) |} w.

Definition set_vad_onVAD (cb : option VADCallback) (w : World) : World :=
  set_vad {| vad_initialized := vad_initialized (vad w);
             vad_isActive := vad_isActive (vad w);
             vad_onVAD := cb;
             vad_simulationInterval := vad_simulationInterval (vad w) |} w.

Definition set_vad_simulationInterval (h : option nat) (w : World) : World :=
  set_vad {| vad_initialized := vad_initialized (vad w);
             vad_isActive := vad_isActive (vad w);
             vad_onVAD := vad_onVAD (vad w);
             vad_simulationInterval := h |} w.

(** [VoiceActivityDetector.initialize]; the simulated 300 ms delay is not
    modelled. *)
Definition vad_initialize (config : VADConfig) : M bool :=
  modify (set_vad_initialized true) ;;
  ret true.

Definition vad_setOnVAD (callback : VADCallback) : M unit :=
  modify (set_vad_onVAD (Some callback)).

(** [VoiceActivityDetector.start]. *)
Definition vad_start : M unit :=
  init <- gets (fun w => vad_initialized (vad w)) ;;
  if negb init then throw (JsError "VAD not initialized")
  else
    modify (set_vad_isActive true) ;;
    id <- setInterval (vad_poll false) 500 ;;
    modify (set_vad_simulationInterval (Some id)).

(** Assignment to the [speechDetected] variable captured by the interval
    function of timer [id]. *)
Definition set_speechDetected (id : nat) (b : bool) (w : World) : World :=
  set_timers
    (map (fun tm =>
            if timer_id tm =? id then
              {| timer_id := timer_id tm; timer_due := timer_due tm;
                 timer_period := timer_period tm;
                 timer_action := vad_poll b |}
            else tm)
         (timers w)) w.

(** The body of the [setInterval] function of [start], run for timer
    [id] whose [speechDetected] variable holds [speechDetected]. *)
Definition vad_intervalCallback (id : nat) (speechDetected : bool) : M unit :=
  active <- gets (fun w => vad_isActive (vad w)) ;;
  if negb active then ret tt
  else if negb speechDetected then
    modify (set_speechDetected id true) ;;
    call_onVAD true
  else ret tt.

(** [VoiceActivityDetector.triggerSilence]. *)
Definition vad_triggerSilence : M unit := call_onVAD false.

(** [VoiceActivityDetector.stop]. *)
Definition vad_stop : M unit :=
  modify (set_vad_isActive false) ;;
  h <- gets (fun w => vad_simulationInterval (vad w)) ;;
  clearInterval h.

Definition vad_getIsActive : M bool :=
  gets (fun w => vad_isActive (vad w)).

(** [VoiceActivityDetector.destroy]. *)
Definition vad_destroy : M unit :=
  vad_stop ;;
  modify (set_vad_initialized false).

(* ================================================================== *)
(** * [VoiceService]: the public operations *)
(* ================================================================== *)

(** The three engine initialisers [initialize] awaits.  [initialize] is
    suspended at each of them, so a step is any computation: it stands for
    the engine's own work and for whatever else runs until the promise
    settles, and it throws when the promise rejects. *)
Record VoiceSDK : Type := {
  sdk_stt_initialize : WhisperConfig -> M bool;
  sdk_tts_initialize : PiperConfig -> M bool;
  sdk_vad_initialize : VADConfig -> M bool
}.

(** The engines of [runanywhere-voice.ts]. *)
Definition MockSDK : VoiceSDK := {|
  sdk_stt_initialize := stt_initialize;
  sdk_tts_initialize := tts_initialize;
  sdk_vad_initialize := vad_initialize
|}.

(** The [try] block of [initialize], in the four parts its comments
    mark: "Initialize STT", "Initialize TTS", "Initialize VAD", and the
    wiring of the callbacks up to [return true]. *)
Definition initialize_stt (sdk : VoiceSDK) : M bool :=
  addThought "Initializing voice pipeline..." th_processing ;;
  sttCfg <- gets (fun w => sttConfig (svc w)) ;;
  addThought ("Loading STT model: " ++ stt_modelName sttCfg) th_processing ;;
  sdk_stt_initialize sdk {| wc_modelId := stt_modelId sttCfg;
                            wc_language := language sttCfg |}.

Definition initialize_tts (sdk : VoiceSDK) : M bool :=
  addThought "✓ Whisper STT engine ready" th_success ;;
  ttsCfg <- gets (fun w => ttsConfig (svc w)) ;;
  addThought ("Loading TTS model: " ++ tts_modelName ttsCfg) th_processing ;;
  sdk_tts_initialize sdk {| pc_modelId := tts_modelId ttsCfg;
                            pc_voice := voice ttsCfg;
                            pc_speed := speed ttsCfg;
                            pc_pitch := pitch ttsCfg |}.

Definition initialize_vad (sdk : VoiceSDK) : M bool :=
  addThought "✓ Piper TTS engine ready" th_success ;;
  addThought "Initializing Voice Activity Detection..." th_processing ;;
  sttCfg <- gets (fun w => sttConfig (svc w)) ;;
  sdk_vad_initialize sdk {| silenceThresholdMs := vadSilenceMs sttCfg;
                            speechThresholdDb := (-26)%Q |}.

Definition initialize_wire : M bool :=
  addThought "✓ VAD module ready" th_success ;;
  stt_setOnTranscript VoiceService_onTranscript ;;
  tts_setOnStatus VoiceService_onStatus ;;
  vad_setOnVAD VoiceService_onVAD ;;
  modify (set_isInitialized true) ;;
  addThought "🎤 Voice pipeline fully initialized" th_success ;;
  updateState idle ;;
  ret true.

Definition initialize_try (sdk : VoiceSDK) : M bool :=
  _ <- initialize_stt sdk ;;
  _ <- initialize_tts sdk ;;
  _ <- initialize_vad sdk ;;
  initialize_wire.

(** The [catch] block of [initialize]. *)
Definition initialize_catch (err : Thrown) : M bool :=
  let msg := messageOf err "Unknown voice init error" in
  addThought ("Voice pipeline init failed: " ++ msg) th_error ;;
  updateState error ;;
  ret false.

(** [VoiceService.initialize]. *)
Definition initialize (sdk : VoiceSDK) : M bool :=
  try_catch (initialize_try sdk) initialize_catch.

(** [VoiceService.stopListening]. *)
Definition stopListening : M unit :=
  h <- gets (fun w => recordingTimeout (svc w)) ;;
  clearTimeout h ;;
  try_catch
    (stt_stopListening ;;
     vad_stop ;;
     st <- gets (fun w => currentState (svc w)) ;;
     when (state_eqb st listening) (updateState idle))
    (fun err =>
       let msg := messageOf err "Unknown error" in
       addThought ("Stop listening error: " ++ msg) th_error).

(** The [try] block of [startListening]. *)
Definition startListening_try (rndPhrase rndConf : Q) : M unit :=
  updateState listening ;;
  addThought "🎤 Listening for voice command..." th_processing ;;
  vadOn <- gets (fun w => vadEnabled (sttConfig (svc w))) ;;
  when vadOn vad_start ;;
  stt_startListening rndPhrase rndConf ;;
  maxMs <- gets (fun w => maxRecordingMs (sttConfig (svc w))) ;;
  id <- setTimeout svc_maxRecording maxMs ;;
  modify (set_recordingTimeout (Some id)).

(** The [catch] block of [startListening]. *)
Definition startListening_catch (err : Thrown) : M unit :=
  let msg := messageOf err "Unknown error" in
  addThought ("Listening failed: " ++ msg) th_error ;;
  updateState error.

(** [VoiceService.startListening]; the two draws are those of
    [WhisperSTT.startListening]. *)
Definition startListening (rndPhrase rndConf : Q) : M unit :=
  init <- gets (fun w => isInitialized (svc w)) ;;
  if negb init then
    addThought "Cannot listen: voice pipeline not initialized" th_error
  else
    st <- gets (fun w => currentState (svc w)) ;;
    if state_eqb st listening then
      addThought "Already listening..." th_warning
    else
      sp <- tts_getIsSpeaking ;;
      when sp tts_stop ;;
      try_catch (startListening_try rndPhrase rndConf) startListening_catch.

(** The [try] block of [speakAnalysis] up to the [await] of the promise
    of [speak]; the rest of the block is [resume k_speakAnalysis]. *)
Definition speakAnalysis_try (text : string) : M unit :=
  updateState speaking ;;
  addThought "🔊 Speaking analysis results..." th_processing ;;
  tts_speak text k_speakAnalysis.

(** The [catch] block of [speakAnalysis]. *)
Definition speakAnalysis_catch (err : Thrown) : M unit :=
  let msg := messageOf err "Unknown TTS error" in
  addThought ("TTS failed: " ++ msg) th_error.

(** [VoiceService.speakAnalysis] until it first suspends: when [speak]
    throws, the [catch] and [finally] blocks run at once; otherwise the
    method waits for the promise and [resume k_speakAnalysis] finishes
    it. *)
Definition speakAnalysis (text : string) : M unit :=
  init <- gets (fun w => isInitialized (svc w)) ;;
  if negb init then
    addThought "Cannot speak: voice pipeline not initialized" th_error
  else
    isL <- stt_getIsListening ;;
    when isL stopListening ;;
    fun w =>
      match speakAnalysis_try text w with
      | (Ok _, w') => (Ok tt, w')
      | (Throw e, w') => (speakAnalysis_catch e ;; speakAnalysis_finally) w'
      end.

(** [VoiceService.stopSpeaking]. *)
Definition stopSpeaking : M unit :=
  tts_stop ;;
  st <- gets (fun w => currentState (svc w)) ;;
  when (state_eqb st speaking) (updateState idle).


(** [VoiceService.destroy]. *)
Definition destroy : M unit :=
  stt_destroy ;;
  tts_destroy ;;
  vad_destroy ;;
  modify (set_isInitialized false) ;;
  updateState idle.

(** The [setTimeout] arrow function of [startListening]. *)
Definition maxRecordingCallback : M unit :=
  st <- gets (fun w => currentState (svc w)) ;;
  when (state_eqb st listening)
    (addThought "Max recording duration reached" th_warning ;;
     stopListening).

(** The [setTimeout] arrow function of [parseAndDispatchCommand]. *)
Definition processingDoneCallback : M unit :=
  st <- gets (fun w => currentState (svc w)) ;;
  when (state_eqb st processing) (updateState idle).

(* ================================================================== *)
(** * The event loop: firing timers on the virtual clock *)
(* ================================================================== *)

(** The pending timer that fires next: the earliest due, and among equals
    the one scheduled first. *)
Fixpoint nextTimer (l : list Timer) : option Timer :=
  match l with
  | [] => None
  | tm :: rest =>
      match nextTimer rest with
      | None => Some tm
      | Some tm' =>
          if Qle_bool (timer_due tm) (timer_due tm') then Some tm
          else Some tm'
      end
  end.

(** A fired [setTimeout] entry leaves the queue; a [setInterval] entry is
    re-armed one period later. *)
Definition rearm (tm : Timer) (l : list Timer) : list Timer :=
  match timer_period tm with
  | None => cancel (timer_id tm) l
  | Some p =>
      map (fun x =>
             if timer_id x =? timer_id tm then
               {| timer_id := timer_id x;
                  timer_due := (timer_due x + p)%Q;
                  timer_period := timer_period x;
                  timer_action := timer_action x |}
             else x) l
  end.

(** The callback of a timer. *)
Definition runAction (id : nat) (a : TimerAction) : M unit :=
  match a with
  | stt_interim closure words wordIndex =>
      stt_interimCallback closure words wordIndex
  | stt_final mock rnd => stt_finalCallback mock rnd
  | tts_done resolve => tts_timeoutCallback resolve
  | vad_poll speechDetected => vad_intervalCallback id speechDetected
  | svc_maxRecording => maxRecordingCallback
  | svc_processingDone => processingDoneCallback
  end.

(** The later of two instants ([b] when they are equal). *)
Definition laterOf (a b : Q) : Q := if Qle_bool a b then b else a.

(** Firing one timer: the clock reaches its due time, the entry is removed
    or re-armed, and its callback runs. *)
Definition fire (tm : Timer) (w : World) : World :=
  let w1 := set_clock (laterOf (clock w) (timer_due tm)) w in
  let w2 := set_timers (rearm tm (timers w1)) w1 in
  exec (runAction (timer_id tm) (timer_action tm)) w2.

(** Letting time pass until [t]: every timer due by then fires, in order.
    [None] when [fuel] firings were not enough. *)
Fixpoint advance (fuel : nat) (t : Q) (w : World) : option World :=
  match nextTimer (timers w) with
  | None => Some (set_clock (laterOf (clock w) t) w)
  | Some tm =>
      if Qle_bool (timer_due tm) t then
        match fuel with
        | O => None
        | S fuel' => advance fuel' t (fire tm w)
        end
      else Some (set_clock (laterOf (clock w) t) w)
  end.

(** [advance] by a duration from the current time. *)
Definition sleep (fuel : nat) (ms : Q) (w : World) : option World :=
  advance fuel (clock w + ms)%Q w.

(** The world when the modules are first loaded: the three singletons
    and the coordinator with their field initialisers, no timer, an empty
    log.  Timer handles start at 1. *)
Definition initialWorld : World := {|
  stt := {| stt_initialized := false; stt_isListening := false;
            stt_onTranscript := None; stt_currentTimeout := None;
            stt_interimTimeout := None |};
  tts := {| tts_initialized := false; tts_isSpeaking := false;
            tts_onStatus := None; tts_currentTimeout := None |};
  vad := {| vad_initialized := false; vad_isActive := false;
            vad_onVAD := None; vad_simulationInterval := None |};
  svc := {| sttConfig := DEFAULT_STT_CONFIG; ttsConfig := DEFAULT_TTS_CONFIG;
            isInitialized := false; currentState := idle;
            recordingTimeout := None |};
  clock := 0;
  nextTimerId := 1;
  timers := [];
  partialText := [];
  log := []
|}.

(** The world after a successful [initialize()] on the mock engines. *)
Definition readyWorld : World := exec (initialize MockSDK) initialWorld.

(* ------------------------------------------------------------------ *)
(** ** Observations on the log and the timer queue *)

Definition events (w : World) : list Event := map snd (log w).

Definition isFinalTranscript (e : Event) : bool :=
  match e with
  | ev_sttCallback _ _ true => true
  | _ => false
  end.

Definition isInterimTranscript (e : Event) : bool :=
  match e with
  | ev_sttCallback _ _ false => true
  | _ => false
  end.

Definition isSttCallback (e : Event) : bool :=
  match e with
  | ev_sttCallback _ _ _ => true
  | _ => false
  end.


Definition isFinalTimer (tm : Timer) : bool :=
  match timer_action tm with
  | stt_final _ _ => true
  | _ => false
  end.

Definition isInterimTimer (tm : Timer) : bool :=
  match timer_action tm with
  | stt_interim _ _ _ => true
  | _ => false
  end.

Definition isTtsTimer (tm : Timer) : bool :=
  match timer_action tm with
  | tts_done _ => true
  | _ => false
  end.

(** The events logged after the first [n]. *)
Definition eventsSince (n : nat) (w : World) : list (Q * Event) :=
  skipn n (log w).

(** The confidences of the transcript callbacks in a log, in order. *)
Fixpoint interimConfidences (l : list (Q * Event)) : list Q :=
  match l with
  | [] => []
  | (_, ev_sttCallback _ c false) :: rest => c :: interimConfidences rest
  | _ :: rest => interimConfidences rest
  end.

Fixpoint finalConfidences (l : list (Q * Event)) : list Q :=
  match l with
  | [] => []
  | (_, ev_sttCallback _ c true) :: rest => c :: finalConfidences rest
  | _ :: rest => finalConfidences rest
  end.

Fixpoint nondecreasing (l : list Q) : bool :=
  match l with
  | [] => true
  | x :: rest =>
      match rest with
      | [] => true
      | y :: _ => Qle_bool x y && nondecreasing rest
      end
  end.

(** A keyword that the trimming of the transcript cannot affect: it is
    not empty and contains no white space. *)
Fixpoint noWhiteSpace (s : string) : bool :=
  match s with
  | EmptyString => true
  | String c s' => negb (isWhiteSpace c) && noWhiteSpace s'
  end.

Definition solidKeyword (kw : string) : bool :=
  match kw with
  | EmptyString => false
  | String _ _ => noWhiteSpace kw
  end.

(** The first entry of the table whose keyword occurs in [text]. *)
Definition firstMatch (text : string) (table : list (string * Intent))
  : option (string * Intent) :=
  find (fun entry => includes text (fst entry)) table.

(* ------------------------------------------------------------------ *)
(** ** Closed form of the interim scheduling loop *)

(** The timer the loop creates for word [k + j] when it starts at word
    [k] with clock [clock0] and next handle [id0]. *)
Definition interimTimer (closure : nat) (words : list string) (clock0 : Q)
  (id0 k j : nat) : Timer :=
  {| timer_id := id0 + j;
     timer_due := (clock0 + (400 + inject_Z (Z.of_nat (k + j)) * 350))%Q;
     timer_period := None;
     timer_action := stt_interim closure words (k + j) |}.

Definition interimTimers (closure : nat) (words : list string) (clock0 : Q)
  (id0 k n : nat) : list Timer :=
  map (interimTimer closure words clock0 id0 k) (seq 0 n).

(** The world after the loop has run over [n] words from word [k]. *)
Definition afterInterims (closure : nat) (words : list string) (k n : nat)
  (w : World) : World :=
  match n with
  | O => w
  | S m =>
      set_stt_interimTimeout (Some (nextTimerId w + m))
        (set_timers
           (timers w
            ++ interimTimers closure words (clock w) (nextTimerId w) k n)%list
           (set_nextTimerId (nextTimerId w + n) w))
  end.

(* ------------------------------------------------------------------ *)
(** ** Reachable worlds and their invariant *)

Definition unitDraw (r : Q) : Prop := (0 <= r /\ r < 1)%Q.

(** The worlds the application can be in: the initial world, then any
    sequence of calls of the coordinator's public methods (with the mock
    engines, and [Math.random()] draws in [0, 1)) and of time passing. *)
Inductive Reachable : World -> Prop :=
| reach_initial : Reachable initialWorld
| reach_initialize w :
    Reachable w -> Reachable (exec (initialize MockSDK) w)
| reach_startListening w r1 r2 :
    Reachable w -> unitDraw r1 -> unitDraw r2 ->
    Reachable (exec (startListening r1 r2) w)
| reach_stopListening w :
    Reachable w -> Reachable (exec stopListening w)
| reach_speakAnalysis w text :
    Reachable w -> Reachable (exec (speakAnalysis text) w)
| reach_stopSpeaking w :
    Reachable w -> Reachable (exec stopSpeaking w)
| reach_destroy w :
    Reachable w -> Reachable (exec destroy w)
| reach_advance w fuel t w' :
    Reachable w -> advance fuel t w = Some w' -> Reachable w'.

Definition countIf {A} (p : A -> bool) (l : list A) : nat :=
  List.length (filter p l).

(** Handles are unique and below the next handle. *)
Definition IdsOK (next : nat) (l : list Timer) : Prop :=
  NoDup (map timer_id l) /\ forall tm, In tm l -> timer_id tm < next.

Definition isPollTimer (tm : Timer) : bool :=
  match timer_action tm with
  | vad_poll _ => true
  | _ => false
  end.

(** No pending timer is overdue, and the only intervals are the
    detector's polls, with a non-negative period. *)
Definition DuesOK (now : Q) (l : list Timer) : Prop :=
  forall tm, In tm l ->
             (now <= timer_due tm)%Q
             /\ forall p, timer_period tm = Some p ->
                          (0 <= p)%Q /\ isPollTimer tm = true.

(** Every pending timer of one kind is the one whose handle the engine
    holds, and the engine is busy. *)
Definition OwnedBy (kind : Timer -> bool) (busy : bool) (handle : option nat)
  (l : list Timer) : Prop :=
  forall tm, In tm l -> kind tm = true ->
             busy = true /\ handle = Some (timer_id tm).

(** What holds of every reachable world. *)
Record WellFormed (w : World) : Prop := {
  (* an initialised coordinator has its engines ready and wired *)
  wf_ready :
    isInitialized (svc w) = true ->
    stt_initialized (stt w) = true /\ tts_initialized (tts w) = true
    /\ vad_initialized (vad w) = true
    /\ stt_onTranscript (stt w) = Some VoiceService_onTranscript
    /\ tts_onStatus (tts w) = Some VoiceService_onStatus
    /\ vad_onVAD (vad w) = Some VoiceService_onVAD;
  (* state [listening] means the speech engine is listening *)
  wf_listening :
    currentState (svc w) = listening ->
    isInitialized (svc w) = true /\ stt_isListening (stt w) = true;
  (* a pending synthesis timer is the current one of a speaking engine *)
  wf_tts :
    OwnedBy isTtsTimer (tts_isSpeaking (tts w)) (tts_currentTimeout (tts w))
            (timers w);
  (* a pending final timer is the current one of a listening engine *)
  wf_final :
    OwnedBy isFinalTimer (stt_isListening (stt w))
            (stt_currentTimeout (stt w)) (timers w);
  wf_ids : IdsOK (nextTimerId w) (timers w);
  wf_dues : DuesOK (clock w) (timers w);
  wf_config : (0 <= maxRecordingMs (sttConfig (svc w)))%Q;
  (* the handles held for listening were all handed out already *)
  wf_handles :
    forall i,
      recordingTimeout (svc w) = Some i \/ stt_currentTimeout (stt w) = Some i
      \/ stt_interimTimeout (stt w) = Some i
      \/ vad_simulationInterval (vad w) = Some i ->
      i < nextTimerId w;
  (* and none of them is the handle of a pending synthesis timer *)
  wf_tts_private :
    forall tm, In tm (timers w) -> isTtsTimer tm = true ->
               recordingTimeout (svc w) <> Some (timer_id tm)
               /\ stt_currentTimeout (stt w) <> Some (timer_id tm)
               /\ stt_interimTimeout (stt w) <> Some (timer_id tm)
               /\ vad_simulationInterval (vad w) <> Some (timer_id tm)
}.

(* ------------------------------------------------------------------ *)
(** ** Ticks of one interval *)

Definition timerById (id : nat) (l : list Timer) : option Timer :=
  find (fun tm => timer_id tm =? id) l.

(** The timer with handle [id] fires (nothing happens when it is gone). *)
Definition tick (id : nat) (w : World) : World :=
  match timerById id (timers w) with
  | Some tm => fire tm w
  | None => w
  end.

Fixpoint ticks (n : nat) (id : nat) (w : World) : World :=
  match n with
  | O => w
  | S n' => ticks n' id (tick id w)
  end.

(** The detector callbacks in a log. *)
Fixpoint vadEvents (l : list (Q * Event)) : list (Q * bool) :=
  match l with
  | [] => []
  | (t, ev_vadCallback b) :: rest => (t, b) :: vadEvents rest
  | _ :: rest => vadEvents rest
  end.

(** The synthesis status callbacks in a log. *)
Fixpoint ttsEvents (l : list (Q * Event)) : list (Q * TTSStatus) :=
  match l with
  | [] => []
  | (t, ev_ttsCallback s) :: rest => (t, s) :: ttsEvents rest
  | _ :: rest => ttsEvents rest
  end.

(** The transcript callbacks in a log. *)
Fixpoint sttEvents (l : list (Q * Event)) : list (Q * (string * Q * bool)) :=
  match l with
  | [] => []
  | (t, ev_sttCallback s c f) :: rest => (t, (s, c, f)) :: sttEvents rest
  | _ :: rest => sttEvents rest
  end.

(* ------------------------------------------------------------------ *)
(** ** Worlds used in examples *)



(** Final-transcript callbacks delivered so far, and final timers still
    pending. *)
Definition countFinalEvents (w : World) : nat :=
  countIf isFinalTranscript (events w).

Definition countFinalTimers (w : World) : nat :=
  countIf isFinalTimer (timers w).


(** A reachable world in which the pipeline is listening: the phrase
    "audit the repository" has been picked. *)
Definition listeningWorld : World := exec (startListening 0 0) readyWorld.


(** A "silence" callback of the detector: [onVAD(false)]. *)
Definition isSilence (e : Event) : bool :=
  match e with
  | ev_vadCallback false => true
  | _ => false
  end.

Definition countSilence (w : World) : nat := countIf isSilence (events w).

(** Two listening sessions in a row.  The first picks "explain the
    security findings" and is stopped after 500 ms; the second starts at
    once and picks "stop listening". *)
Definition firstSessionStopped : option World :=
  option_map (exec stopListening)
    (advance 10 500 (exec (startListening (1 # 3) 0) readyWorld)).

Definition secondSessionStarted : option World :=
  option_map (exec (startListening (5 # 6) 0)) firstSessionStopped.

(** The interim confidences delivered during the first 800 ms of the
    second session. *)
Definition secondSessionInterims : option (list Q) :=
  match secondSessionStarted with
  | Some wB =>
      option_map
        (fun w => map Qred (interimConfidences
                              (eventsSince (List.length (log wB)) w)))
        (advance 20 1300 wB)
  | None => None
  end.

(** Occurrences of a character in a string. *)
Fixpoint countChar (c : ascii) (s : string) : nat :=
  match s with
  | EmptyString => 0
  | String c' s' => (if Ascii.eqb c' c then 1 else 0) + countChar c s'
  end.

(** A reachable world just before a final transcript: listening was
    started on the phrase "generate security report" (delay 2200 ms) and
    2100 ms have passed. *)
Definition beforeFinalWorld : World :=
  match advance 20 2100 (exec (startListening (1 # 2) 0) readyWorld) with
  | Some w => w
  | None => readyWorld
  end.

(** A second session started 29 s after a first one that ended with its
    final transcript ("stop listening", after 1500 ms). *)
Definition secondSessionWorld : World :=
  match advance 100 29000 (exec (startListening (5 # 6) 0) readyWorld) with
  | Some w => exec (startListening 0 0) w
  | None => readyWorld
  end.

(* ------------------------------------------------------------------ *)
(** ** Status getters *)





(* ------------------------------------------------------------------ *)
(** ** What keeps the pipeline from getting stuck *)

Definition isRecordingTimer (tm : Timer) : bool :=
  match timer_action tm with
  | svc_maxRecording => true
  | _ => false
  end.

Definition isProcessingTimer (tm : Timer) : bool :=
  match timer_action tm with
  | svc_processingDone => true
  | _ => false
  end.

(** A handle names, if any pending timer at all, one of the kind it is
    kept for. *)
Definition HandleFor (kind : Timer -> bool) (handle : option nat)
  (l : list Timer) : Prop :=
  forall tm, In tm l -> handle = Some (timer_id tm) -> kind tm = true.

(** A timer of one kind is pending and due by [deadline]. *)
Definition PendingBy (kind : Timer -> bool) (deadline : Q) (l : list Timer)
  : Prop :=
  exists tm, In tm l /\ kind tm = true /\ (timer_due tm <= deadline)%Q.

(** The state never is [error]; the engines are initialised exactly when
    the coordinator is, with the default configuration; and whatever keeps
    the pipeline out of [idle] has a pending timer that ends it: a
    synthesis timer due by [Dt] while speaking, a final timer due by [Df]
    while the speech engine listens, a return-to-idle timer due by [Dp]
    while processing.  Every interval polls at 500 ms. *)
Record Settling (Dt Df Dp : Q) (w : World) : Prop := {
  se_state : currentState (svc w) <> error;
  se_engines :
    stt_initialized (stt w) = isInitialized (svc w)
    /\ tts_initialized (tts w) = isInitialized (svc w)
    /\ vad_initialized (vad w) = isInitialized (svc w);
  se_config :
    sttConfig (svc w) = DEFAULT_STT_CONFIG
    /\ ttsConfig (svc w) = DEFAULT_TTS_CONFIG;
  se_speaking :
    currentState (svc w) = speaking ->
    tts_isSpeaking (tts w) = true /\ isInitialized (svc w) = true;
  se_tts :
    tts_isSpeaking (tts w) = true -> PendingBy isTtsTimer Dt (timers w);
  se_stt :
    stt_isListening (stt w) = true -> PendingBy isFinalTimer Df (timers w);
  se_processing :
    currentState (svc w) = processing ->
    PendingBy isProcessingTimer Dp (timers w);
  se_tts_handle :
    forall i, tts_currentTimeout (tts w) = Some i -> i < nextTimerId w;
  se_recording :
    HandleFor isRecordingTimer (recordingTimeout (svc w)) (timers w);
  se_final :
    HandleFor isFinalTimer (stt_currentTimeout (stt w)) (timers w);
  se_interim :
    HandleFor isInterimTimer (stt_interimTimeout (stt w)) (timers w);
  se_poll :
    HandleFor isPollTimer (vad_simulationInterval (vad w)) (timers w);
  se_synthesis :
    HandleFor isTtsTimer (tts_currentTimeout (tts w)) (timers w);
  se_period :
    forall tm p, In tm (timers w) -> timer_period tm = Some p -> p = 500%Q
}.

(** The same with the deadlines counted from the current time: 5000 ms
    for the synthesis, 3000 ms for the final transcript, 3500 ms for the
    return from [processing]. *)
Definition Live (w : World) : Prop :=
  Settling (clock w + 5000)%Q (clock w + 3000)%Q (clock w + 3500)%Q w.

(* ------------------------------------------------------------------ *)
(** ** How many timers can still fire *)

(** The firings a pending timer can still make by time [t]: an interval
    fires at its due time and then every period; a timeout fires once, and
    a final timer counts twice, for the return-to-idle timer its callback
    schedules. *)
Definition firingsLeft (t : Q) (tm : Timer) : nat :=
  match timer_period tm with
  | Some p =>
      if Qle_bool (timer_due tm) t
      then S (Z.to_nat (Qfloor ((t - timer_due tm) / p)))
      else 0
  | None => if isFinalTimer tm then 2 else 1
  end.

Definition workLeft (t : Q) (l : list Timer) : nat :=
  list_sum (map (firingsLeft t) l).

(* ------------------------------------------------------------------ *)
(** ** The transcripts of one session *)

(** The words joined by single spaces. *)
Definition joinWords (l : list string) : string := String.concat " " l.

(** The interim transcript for word [i] of a session started at [clock0]:
    delivered when the [i]-th interim timer is due, with the first [i + 1]
    words as text. *)
Definition interimEvent (clock0 : Q) (words : list string) (i : nat)
  : Q * (string * Q * bool) :=
  ((clock0 + (400 + inject_Z (Z.of_nat i) * 350))%Q,
   (joinWords (firstn (S i) words),
    interimConfidence i (List.length words), false)).

Definition interimEvents (clock0 : Q) (words : list string) (k : nat)
  : list (Q * (string * Q * bool)) :=
  map (interimEvent clock0 words) (seq 0 k).

(** A session of the speech engine in progress: started at [clock0] on
    the phrase [mock] with handles from [id0] on, [k] interim transcripts
    delivered so far after the transcripts [base] of earlier sessions. *)
Record Session (clock0 : Q) (closure id0 : nat) (mock : MockTranscript)
  (rnd : Q) (base : list (Q * (string * Q * bool))) (k : nat) (w : World)
  : Prop := {
  ss_listening : stt_isListening (stt w) = true;
  ss_wired : stt_onTranscript (stt w) = Some VoiceService_onTranscript;
  (* the interim timers pending are those of this session not yet fired *)
  ss_only :
    forall tm, In tm (timers w) -> isInterimTimer tm = true ->
      exists j, k <= j < List.length (split space (mock_text mock))
                /\ tm = interimTimer closure (split space (mock_text mock))
                                     clock0 id0 0 j;
  ss_all :
    forall j, k <= j < List.length (split space (mock_text mock)) ->
      In (interimTimer closure (split space (mock_text mock)) clock0 id0 0 j)
         (timers w);
  (* the final timer is pending *)
  ss_final :
    exists idF,
      In {| timer_id := idF; timer_due := (clock0 + mock_delay mock)%Q;
            timer_period := None; timer_action := stt_final mock rnd |}
         (timers w);
  (* no safety timer is due before the final transcript *)
  ss_safety :
    forall tm, In tm (timers w) -> isRecordingTimer tm = true ->
      (clock0 + mock_delay mock < timer_due tm)%Q;
  (* the partial text holds the words delivered so far *)
  ss_text :
    In closure (map fst (partialText w))
    /\ lookupText closure (partialText w)
       = joinWords (firstn k (split space (mock_text mock)));
  ss_events :
    sttEvents (log w)
    = (base ++ interimEvents clock0 (split space (mock_text mock)) k)%list
}.

(** Every [startListening] call of the speech engine has a cell of its
    own for its [partialText] variable: the cells are numbered in the
    order of the calls. *)
Definition TextsOK (w : World) : Prop :=
  map fst (partialText w) = seq 0 (List.length (partialText w)).

(* ================================================================== *)
(** * Theorems *)
(* ================================================================== *)

(* ------------------------------------------------------------------ *)
(** ** Strings and command parsing *)

Lemma prefix_nil_r (kw : string) :
  String.prefix kw EmptyString = true -> kw = EmptyString.
Proof. destruct kw; simpl; [reflexivity | discriminate]. Qed.

(** A keyword without white space is a prefix of [trimEnd s] exactly when
    it is a prefix of [s]. *)
Lemma prefix_trimEnd (s kw : string) :
  noWhiteSpace kw = true ->
  String.prefix kw (trimEnd s) = String.prefix kw s.
Proof.
  revert kw. induction s as [|c s IH]; intros kw Hkw; [reflexivity|].
  destruct kw as [|k kw]; [destruct (trimEnd (String c s)); reflexivity|].
  simpl in Hkw. apply andb_true_iff in Hkw as [Hk Hkw].
  specialize (IH kw Hkw). simpl.
  destruct (trimEnd s) as [|t ts] eqn:Et.
  - destruct (isWhiteSpace c) eqn:Ec.
    + simpl. destruct (ascii_dec k c) as [->|]; [|reflexivity].
      rewrite Ec in Hk. discriminate.
    + simpl. destruct (ascii_dec k c); [exact IH | reflexivity].
  - simpl. destruct (ascii_dec k c); [exact IH | reflexivity].
Qed.

Lemma includes_trimEnd (s kw : string) :
  solidKeyword kw = true -> includes (trimEnd s) kw = includes s kw.
Proof.
  intros Hkw. destruct kw as [|k kw]; [discriminate|].
  unfold solidKeyword in Hkw.
  induction s as [|c s IH]; [reflexivity|].
  change (includes (String c s) (String k kw))
    with (String.prefix (String k kw) (String c s) || includes s (String k kw)).
  rewrite <- IH, <- (prefix_trimEnd (String c s) _ Hkw).
  simpl trimEnd. destruct (trimEnd s) as [|t ts] eqn:Et.
  - destruct (isWhiteSpace c); simpl; rewrite ?orb_false_r; reflexivity.
  - reflexivity.
Qed.

Lemma includes_trimStart (s kw : string) :
  solidKeyword kw = true -> includes (trimStart s) kw = includes s kw.
Proof.
  intros Hkw. destruct kw as [|k kw]; [discriminate|].
  simpl in Hkw. apply andb_true_iff in Hkw as [Hk _].
  induction s as [|c s IH]; [reflexivity|].
  simpl trimStart. destruct (isWhiteSpace c) eqn:Ec; [|reflexivity].
  rewrite IH. simpl.
  destruct (ascii_dec k c) as [->|]; [|reflexivity].
  rewrite Ec in Hk. discriminate.
Qed.

Lemma includes_trim (s kw : string) :
  solidKeyword kw = true -> includes (trim s) kw = includes s kw.
Proof.
  intros Hkw. unfold trim.
  rewrite includes_trimEnd, includes_trimStart by assumption. reflexivity.
Qed.

(** [includes] is the substring relation. *)
Lemma prefix_app (kw s : string) :
  String.prefix kw s = true <-> exists post, s = kw ++ post.
Proof.
  revert s. induction kw as [|k kw IH]; intros s; simpl.
  - split; [intros _; exists s; reflexivity | intros _; destruct s; reflexivity].
  - destruct s as [|c s]; simpl.
    + split; [discriminate | intros [post H]; discriminate].
    + destruct (ascii_dec k c) as [->|Hne].
      * rewrite IH. split; intros [post H]; exists post.
        -- now rewrite H.
        -- now injection H.
      * split; [discriminate|]. intros [post H]. injection H as H1 _.
        exfalso. apply Hne. symmetry. exact H1.
Qed.

Lemma includes_spec (s kw : string) :
  includes s kw = true <-> exists pre post, s = pre ++ kw ++ post.
Proof.
  induction s as [|c s IH].
  - change (includes EmptyString kw)
      with (String.prefix kw EmptyString || false).
    rewrite orb_false_r, prefix_app. split.
    + intros [post H]. exists EmptyString, post. exact H.
    + intros [pre [post H]]. destruct pre; simpl in H.
      * exists post. exact H.
      * discriminate.
  - change (includes (String c s) kw)
      with (String.prefix kw (String c s) || includes s kw).
    rewrite orb_true_iff, prefix_app, IH. split.
    + intros [[post H] | [pre [post H]]].
      * exists EmptyString, post. exact H.
      * exists (String c pre), post. simpl. now rewrite H.
    + intros [pre [post H]]. destruct pre as [|p pre]; simpl in H.
      * left. exists post. exact H.
      * right. injection H as _ H. exists pre, post. exact H.
Qed.

(** The loop with [break] returns the first matching entry. *)
Lemma scanKeywords_firstMatch (lower : string) (table : list (string * Intent)) :
  scanKeywords lower table =
  match firstMatch lower table with
  | Some (keyword, intent) => (intent, keyword)
  | None => (intent_unknown, "")
  end.
Proof.
  unfold firstMatch.
  induction table as [|[kw i] rest IH]; simpl; [reflexivity|].
  destruct (includes lower kw); [reflexivity | exact IH].
Qed.

Lemma firstMatch_trim (s : string) (table : list (string * Intent)) :
  forallb (fun entry => solidKeyword (fst entry)) table = true ->
  firstMatch (trim s) table = firstMatch s table.
Proof.
  unfold firstMatch.
  induction table as [|[kw i] rest IH]; simpl; [reflexivity|].
  intros H. apply andb_true_iff in H as [Hkw Hrest].
  rewrite (includes_trim s kw Hkw), (IH Hrest). reflexivity.
Qed.

(** C4. For every transcript, command parsing lower-cases the text and
    returns the intent (and keyword) of the first entry of the keyword table,
    in table order, whose keyword occurs in the lower-cased text as a
    substring, and [unknown] when none does; the command handed to
    [onCommand] carries that intent.  "please scan for vulnerabilities"
    parses to [scan] and "what's the weather" to [unknown]. *)
Theorem C4_command_parsing :
  (forall transcript : string,
      matchCommand transcript =
      match firstMatch (toLowerCase transcript) COMMAND_KEYWORDS with
      | Some (keyword, intent) => (intent, keyword)
      | None => (intent_unknown, "")
      end)
  /\ (forall transcript keyword intent,
         firstMatch (toLowerCase transcript) COMMAND_KEYWORDS
         = Some (keyword, intent) ->
         exists before after,
           COMMAND_KEYWORDS = (before ++ (keyword, intent) :: after)%list
           /\ (exists pre post,
                  toLowerCase transcript = pre ++ keyword ++ post)
           /\ (forall kw i, In (kw, i) before ->
                            includes (toLowerCase transcript) kw = false))
  /\ (forall transcript,
         firstMatch (toLowerCase transcript) COMMAND_KEYWORDS = None ->
         forall kw i, In (kw, i) COMMAND_KEYWORDS ->
                      includes (toLowerCase transcript) kw = false)
  /\ (forall transcript confidence w,
         In (ev_command {| cmd_keyword := snd (matchCommand transcript);
                           cmd_intent := fst (matchCommand transcript);
                           cmd_rawTranscript := transcript;
                           cmd_confidence := confidence |})
            (events (exec (parseAndDispatchCommand transcript confidence) w)))
  /\ fst (matchCommand "please scan for vulnerabilities") = intent_scan
  /\ fst (matchCommand "what's the weather") = intent_unknown.
Proof.
  split; [|split; [|split; [|split; [|split]]]].
  - intros transcript. unfold matchCommand.
    rewrite scanKeywords_firstMatch, firstMatch_trim; reflexivity.
  - intros transcript keyword intent H. unfold firstMatch in H.
    generalize dependent COMMAND_KEYWORDS. intros table.
    induction table as [|[kw i] rest IH]; simpl; [discriminate|].
    destruct (includes (toLowerCase transcript) kw) eqn:E.
    + intros [= -> ->]. exists [], rest. split; [reflexivity|]. split.
      * apply includes_spec. exact E.
      * intros ? ? [].
    + intros H. destruct (IH H) as [before [after [-> [Hsub Hnone]]]].
      exists ((kw, i) :: before), after. split; [reflexivity|].
      split; [exact Hsub|].
      intros kw' i' [[= <- <-] | Hin]; [exact E | eauto].
  - intros transcript H kw i Hin. unfold firstMatch in H.
    apply (find_none _ _ H (kw, i) Hin).
  - intros transcript confidence w.
    unfold parseAndDispatchCommand, events.
    destruct (matchCommand transcript) as [matchedIntent matchedKeyword].
    destruct (intent_eqb matchedIntent intent_unknown);
      cbn; rewrite !map_app, !in_app_iff; cbn; auto 10.
  - reflexivity.
  - reflexivity.
Qed.

(** C4 at two transcripts: "Please SCAN now" contains the keyword of the
    entry that is chosen, and "what's the weather" contains no keyword of
    the table, "stop" among them. *)
Lemma C4_witness :
  (exists pre post, toLowerCase "Please SCAN now" = pre ++ "scan" ++ post)
  /\ includes (toLowerCase "what's the weather") "stop" = false.
Proof.
  destruct C4_command_parsing as (_ & Hfirst & Hnone & _).
  split.
  - destruct (Hfirst "Please SCAN now" "scan" intent_scan eq_refl)
      as (before & after & _ & Hsub & _).
    exact Hsub.
  - apply (Hnone "what's the weather" eq_refl "stop" intent_stop).
    vm_compute. tauto.
Defined.

(* ------------------------------------------------------------------ *)
(** ** Initialisation *)

Lemma initialize_wire_ok (w : World) :
  result initialize_wire w = Ok true
  /\ currentState (svc (exec initialize_wire w)) = idle
  /\ isInitialized (svc (exec initialize_wire w)) = true.
Proof. repeat split. Qed.

Lemma initialize_catch_ok (e : Thrown) (w : World) :
  result (initialize_catch e) w = Ok false
  /\ currentState (svc (exec (initialize_catch e) w)) = error.
Proof. repeat split. Qed.


(** With the mock engines of the repository no initialisation step can
    throw, so [initialize()] always succeeds. *)
Lemma initialize_mock_succeeds (w : World) :
  result (initialize MockSDK) w = Ok true
  /\ currentState (svc (exec (initialize MockSDK) w)) = idle.
Proof. repeat split. Qed.

(* ------------------------------------------------------------------ *)
(** ** Symbolic execution of methods *)

(** Opening a world into its fields lets every method body compute. *)
Ltac open_world w :=
  let s := fresh "stt0" in let t := fresh "tts0" in
  let v := fresh "vad0" in let c := fresh "svc0" in
  destruct w as [s t v c ck nid tms pts lg];
  destruct s as [sInit sLis sCb sCur sInt];
  destruct t as [tInit tSpk tCb tCur];
  destruct v as [vInit vAct vCb vInt];
  destruct c as [cStt cTts cInit cSt cRec].

Ltac js_unfold :=
  unfold exec, result, bind, ret, gets, modify, when, throw, try_catch.

(* ------------------------------------------------------------------ *)
(** ** Stopping the synthesis engine *)

(** C10. Every call to [PiperTTS.stop()] invokes the registered status
    callback with "finished", whether or not an utterance is in progress;
    so [stopSpeaking()] always reports a state change to [idle] through the
    callback wired by [initialize()], even when nothing is being spoken. *)
Theorem C10_stop_always_reports_finished (w : World) :
  tts_onStatus (tts w) = Some VoiceService_onStatus ->
  let idleState := {| vs_isListening := false; vs_isSpeaking := false;
                      vs_isProcessing := false; vs_state := idle;
                      vs_vadActive := vad_isActive (vad w);
                      vs_error := None |} in
  let reported := [ (clock w, ev_ttsCallback tts_finished);
                    (clock w, ev_ttsStatusChange false);
                    (clock w, ev_stateChange idleState) ] in
  result tts_stop w = Ok tt
  /\ log (exec tts_stop w) = (log w ++ reported)%list
  /\ result stopSpeaking w = Ok tt
  /\ log (exec stopSpeaking w) = (log w ++ reported)%list
  /\ currentState (svc (exec stopSpeaking w)) = idle.
Proof.
  intros Hcb. open_world w. simpl in Hcb. subst.
  destruct tCur; cbn; rewrite <- !app_assoc; repeat split; reflexivity.
Qed.

(** C10 applied to a pipeline that is idle and silent. *)
Lemma C10_witness :
  tts_isSpeaking (tts readyWorld) = false
  /\ currentState (svc (exec stopSpeaking readyWorld)) = idle
  /\ In (ev_ttsCallback tts_finished) (events (exec tts_stop readyWorld)).
Proof.
  split; [reflexivity|].
  destruct (C10_stop_always_reports_finished readyWorld eq_refl)
    as [_ [Hlog [_ [_ Hst]]]].
  split; [exact Hst|].
  unfold events. rewrite Hlog, map_app, in_app_iff. right. left. reflexivity.
Defined.

(* ------------------------------------------------------------------ *)
(** ** The speech engine's scheduling loop in closed form *)

Lemma interimTimers_shift closure words clock0 id0 k n :
  (interimTimer closure words clock0 id0 k 0
   :: interimTimers closure words clock0 (S id0) (S k) n)
  = interimTimers closure words clock0 id0 k (S n).
Proof.
  unfold interimTimers. cbn [seq map]. f_equal.
  rewrite <- seq_shift, map_map. apply map_ext. intros j.
  unfold interimTimer. cbn [Nat.add].
  rewrite <- !plus_n_Sm. reflexivity.
Qed.

Ltac world_fields :=
  cbv beta iota delta
    [set_stt set_tts set_vad set_svc set_clock set_nextTimerId set_timers
     set_partialText set_log
     set_stt_initialized set_stt_isListening set_stt_onTranscript
     set_stt_currentTimeout set_stt_interimTimeout
     set_tts_initialized set_tts_isSpeaking set_tts_onStatus
     set_tts_currentTimeout
     set_vad_initialized set_vad_isActive set_vad_onVAD
     set_vad_simulationInterval
     set_currentState set_isInitialized set_recordingTimeout
     stt tts vad svc clock nextTimerId timers partialText log
     stt_initialized stt_isListening stt_onTranscript stt_currentTimeout
     stt_interimTimeout
     tts_initialized tts_isSpeaking tts_onStatus tts_currentTimeout
     vad_initialized vad_isActive vad_onVAD vad_simulationInterval
     sttConfig ttsConfig isInitialized currentState recordingTimeout].

Lemma forEach_interims closure words k n w :
  forEach (seq k n)
    (fun i =>
       id <- setTimeout (stt_interim closure words i)
                        (400 + inject_Z (Z.of_nat i) * 350)%Q ;;
       modify (set_stt_interimTimeout (Some id))) w
  = (Ok tt, afterInterims closure words k n w).
Proof.
  revert k w. induction n as [|n IH]; intros k w; [reflexivity|].
  cbn [seq forEach]. unfold bind at 1. unfold bind at 1.
  cbn [setTimeout schedule modify]. rewrite IH.
  f_equal. open_world w. unfold afterInterims.
  destruct n as [|m].
  - world_fields. unfold interimTimers, interimTimer. cbn [seq map].
    rewrite !Nat.add_0_r, Nat.add_1_r. reflexivity.
  - world_fields.
    rewrite <- (interimTimers_shift closure words ck nid k (S m)).
    unfold interimTimer at 1.
    rewrite <- app_assoc, !Nat.add_0_r. cbn [app Nat.add].
    rewrite <- !plus_n_Sm. reflexivity.
Qed.

Lemma scheduleInterims_closed closure words w :
  scheduleInterims closure words w
  = (Ok tt, afterInterims closure words 0 (List.length words) w).
Proof. apply forEach_interims. Qed.

Lemma split_nonempty (sep : ascii) (s : string) :
  exists n, List.length (split sep s) = S n.
Proof.
  induction s as [|c s [n IH]]; [exists 0; reflexivity|].
  cbn. destruct (Ascii.eqb c sep).
  - exists (S n). cbn. now rewrite IH.
  - destruct (split sep s); [discriminate|]. exists n. exact IH.
Qed.

(* ------------------------------------------------------------------ *)
(** ** The timer queue: handles, due times, ownership *)

Lemma in_cancel id tm l :
  In tm (cancel id l) <-> In tm l /\ timer_id tm <> id.
Proof.
  unfold cancel. rewrite filter_In, negb_true_iff, Nat.eqb_neq. reflexivity.
Qed.

Lemma ids_distinct_filter (keep : Timer -> bool) (tms : list Timer) :
  NoDup (map timer_id tms) -> NoDup (map timer_id (filter keep tms)).
Proof.
  induction tms as [|tm tms IH]; cbn; intros Hnd; [exact Hnd|].
  apply NoDup_cons_iff in Hnd as [Hfresh Hrest].
  destruct (keep tm); cbn; [|exact (IH Hrest)].
  apply NoDup_cons; [|exact (IH Hrest)].
  intros Hin. apply Hfresh.
  apply in_map_iff in Hin as (x & Hx & Hin). apply filter_In in Hin as [Hin _].
  apply in_map_iff. exists x. split; assumption.
Qed.

Lemma IdsOK_nil n : IdsOK n [].
Proof. split; [constructor | intros ? []]. Qed.

Lemma IdsOK_mono n n' l : n <= n' -> IdsOK n l -> IdsOK n' l.
Proof.
  intros Hle [Hnd Hlt]. split; [exact Hnd|].
  intros tm Hin. specialize (Hlt tm Hin). lia.
Qed.

Lemma IdsOK_cancel n id l : IdsOK n l -> IdsOK n (cancel id l).
Proof.
  intros [Hnd Hlt]. split.
  - apply ids_distinct_filter. exact Hnd.
  - intros tm Hin. apply in_cancel in Hin. apply Hlt. tauto.
Qed.

Lemma IdsOK_snoc n l tm :
  timer_id tm = n -> IdsOK n l -> IdsOK (S n) (l ++ [tm]).
Proof.
  intros Hid [Hnd Hlt]. split.
  - rewrite map_app. cbn. apply NoDup_app; [exact Hnd | repeat constructor; intros [] |].
    intros x Hx [<-|[]]. rewrite in_map_iff in Hx.
    destruct Hx as [y [Hy Hin]]. specialize (Hlt y Hin). lia.
  - intros x Hin. apply in_app_or in Hin as [Hin|[<-|[]]].
    + specialize (Hlt x Hin). lia.
    + lia.
Qed.

Lemma IdsOK_map n l (f : Timer -> Timer) :
  (forall x, timer_id (f x) = timer_id x) -> IdsOK n l -> IdsOK n (map f l).
Proof.
  intros Hf [Hnd Hlt]. split.
  - rewrite map_map. rewrite (map_ext _ timer_id) by exact Hf. exact Hnd.
  - intros x Hin. apply in_map_iff in Hin as [y [<- Hin]].
    rewrite Hf. auto.
Qed.

Lemma map_add_seq id0 a n :
  map (fun j => id0 + j) (seq a n) = seq (id0 + a) n.
Proof.
  revert a. induction n as [|n IH]; intros a; [reflexivity|].
  cbn [seq map]. rewrite IH, Nat.add_succ_r. reflexivity.
Qed.

Lemma interimTimers_ids closure words clock0 id0 k n :
  map timer_id (interimTimers closure words clock0 id0 k n) = seq id0 n.
Proof.
  unfold interimTimers. rewrite map_map. cbn.
  rewrite map_add_seq, Nat.add_0_r. reflexivity.
Qed.

Lemma in_interimTimers closure words clock0 id0 k n tm :
  In tm (interimTimers closure words clock0 id0 k n) ->
  exists j, j < n /\ tm = interimTimer closure words clock0 id0 k j.
Proof.
  unfold interimTimers. rewrite in_map_iff. intros [j [<- Hin]].
  apply in_seq in Hin. exists j. split; [lia | reflexivity].
Qed.

Lemma IdsOK_interims closure words clock0 n l k m :
  IdsOK n l ->
  IdsOK (n + m) (l ++ interimTimers closure words clock0 n k m).
Proof.
  intros [Hnd Hlt]. split.
  - rewrite map_app, interimTimers_ids.
    apply NoDup_app; [exact Hnd | apply seq_NoDup |].
    intros x Hx Hs. apply in_seq in Hs. rewrite in_map_iff in Hx.
    destruct Hx as [y [<- Hin]]. specialize (Hlt y Hin). lia.
  - intros x Hin. apply in_app_or in Hin as [Hin|Hin].
    + specialize (Hlt x Hin). lia.
    + apply in_interimTimers in Hin as [j [Hj ->]]. cbn. lia.
Qed.

Lemma DuesOK_nil now : DuesOK now [].
Proof. intros ? []. Qed.

Lemma DuesOK_cancel now id l : DuesOK now l -> DuesOK now (cancel id l).
Proof. intros H tm Hin. apply in_cancel in Hin. apply H. tauto. Qed.

Lemma DuesOK_snoc now l tm :
  (now <= timer_due tm)%Q ->
  (forall p, timer_period tm = Some p ->
             (0 <= p)%Q /\ isPollTimer tm = true) ->
  DuesOK now l -> DuesOK now (l ++ [tm]).
Proof.
  intros Hd Hp H x Hin. apply in_app_or in Hin as [Hin|[<-|[]]]; auto.
Qed.

Lemma DuesOK_interims closure words now n l k m :
  DuesOK now l ->
  DuesOK now (l ++ interimTimers closure words now n k m).
Proof.
  intros H x Hin. apply in_app_or in Hin as [Hin|Hin]; [auto|].
  apply in_interimTimers in Hin as [j [Hj ->]].
  unfold interimTimer. cbn [timer_due timer_period]. split.
  - assert (0 <= inject_Z (Z.of_nat (k + j)))%Q.
    { change 0%Q with (inject_Z 0). rewrite <- Zle_Qle. lia. }
    lra.
  - discriminate.
Qed.

Lemma OwnedBy_nil kind busy handle : OwnedBy kind busy handle [].
Proof. intros ? []. Qed.

Lemma OwnedBy_cancel kind busy handle id l :
  OwnedBy kind busy handle l -> OwnedBy kind busy handle (cancel id l).
Proof. intros H tm Hin. apply in_cancel in Hin. apply H. tauto. Qed.

(** Clearing the held handle leaves no timer of the kind. *)
Lemma OwnedBy_release kind busy id l busy' handle' :
  OwnedBy kind busy (Some id) l ->
  OwnedBy kind busy' handle' (cancel id l).
Proof.
  intros H tm Hin Hk. apply in_cancel in Hin as [Hin Hne].
  destruct (H tm Hin Hk) as [_ [= ->]]. contradiction.
Qed.

(** With no handle held, or an idle engine, there is no timer of the
    kind. *)
Lemma OwnedBy_unheld kind busy l busy' handle' :
  OwnedBy kind busy None l -> OwnedBy kind busy' handle' l.
Proof. intros H tm Hin Hk. destruct (H tm Hin Hk) as [_ [=]]. Qed.

Lemma OwnedBy_idle kind handle l busy' handle' :
  OwnedBy kind false handle l -> OwnedBy kind busy' handle' l.
Proof. intros H tm Hin Hk. destruct (H tm Hin Hk) as [[=] _]. Qed.

Lemma OwnedBy_snoc_other kind busy handle l tm :
  kind tm = false ->
  OwnedBy kind busy handle l -> OwnedBy kind busy handle (l ++ [tm]).
Proof.
  intros Hk H x Hin Hx. apply in_app_or in Hin as [Hin|[<-|[]]]; auto.
  congruence.
Qed.

Lemma OwnedBy_snoc_own kind handle l tm :
  OwnedBy kind false handle l ->
  OwnedBy kind true (Some (timer_id tm)) (l ++ [tm]).
Proof.
  intros H x Hin Hx. apply in_app_or in Hin as [Hin|[<-|[]]]; auto.
  destruct (H x Hin Hx) as [[=] _].
Qed.

Lemma OwnedBy_app_other kind busy handle l l' :
  (forall tm, In tm l' -> kind tm = false) ->
  OwnedBy kind busy handle l -> OwnedBy kind busy handle (l ++ l').
Proof.
  intros Hk H x Hin Hx. apply in_app_or in Hin as [Hin|Hin]; auto.
  rewrite (Hk x Hin) in Hx. discriminate.
Qed.

Lemma OwnedBy_map kind busy handle l (f : Timer -> Timer) :
  (forall x, kind (f x) = true -> kind x = true /\ timer_id (f x) = timer_id x) ->
  OwnedBy kind busy handle l -> OwnedBy kind busy handle (map f l).
Proof.
  intros Hf H x Hin Hx. apply in_map_iff in Hin as [y [<- Hin]].
  destruct (Hf y Hx) as [Hy ->]. auto.
Qed.

Lemma interimTimers_kind closure words clock0 id0 k n tm :
  In tm (interimTimers closure words clock0 id0 k n) ->
  isTtsTimer tm = false /\ isFinalTimer tm = false.
Proof. intros H. apply in_interimTimers in H as [j [_ ->]]. split; reflexivity. Qed.

(* ------------------------------------------------------------------ *)
(** ** Every reachable world is well formed *)

Arguments cancel : simpl never.
Arguments rearm : simpl never.
Arguments scheduleInterims : simpl never.
Arguments interimTimers : simpl never.
Arguments set_speechDetected : simpl never.
Arguments Qplus : simpl never.
Arguments Qmult : simpl never.
Arguments Qmax : simpl never.
Arguments Qmin : simpl never.
Arguments Qle_bool : simpl never.
Arguments cappedDuration : simpl never.
Arguments wordCount : simpl never.
Arguments pickMock : simpl never.
Arguments matchCommand : simpl never.
Arguments toFixed0 : simpl never.
Arguments String.append : simpl never.
Arguments split : simpl never.

Ltac in_cases :=
  repeat match goal with
  | H : In _ (cancel _ _) |- _ => apply in_cancel in H; destruct H
  | H : In _ (_ ++ _)%list |- _ => apply in_app_or in H; destruct H
  | H : In _ (_ :: _) |- _ => destruct H as [<-|H]
  | H : In _ [] |- _ => destruct H
  | H : In _ (interimTimers _ _ _ _ _ _) |- _ =>
      apply in_interimTimers in H; destruct H as (? & ? & ->)
  | H : In _ (map _ _) |- _ =>
      apply in_map_iff in H; destruct H as (? & <- & H)
  end.

(** Case analysis on the handle comparisons left by the maps over the
    queue. *)
Ltac eqb_cases :=
  repeat match goal with
  | H : context [Nat.eqb ?a ?b] |- _ => destruct (Nat.eqb_spec a b)
  | |- context [Nat.eqb ?a ?b] => destruct (Nat.eqb_spec a b)
  end.

Ltac use_owned :=
  repeat match goal with
  | H : OwnedBy ?k ?b ?h ?l, Hin : In ?x ?l |- _ =>
      lazymatch goal with
      | _ : k x = true -> b = true /\ h = Some (timer_id x) |- _ => fail
      | _ => pose proof (H x Hin)
      end
  end.

(** Goals [OwnedBy kind busy handle l]. *)
Ltac owned :=
  let tm := fresh "tm" in let Hin := fresh "Hin" in let Hk := fresh "Hk" in
  intros tm Hin Hk; in_cases; use_owned; cbn in *; eqb_cases; cbn in *;
  try discriminate; try (intuition congruence).

Lemma timer_id_map_if (id : nat) (g : Timer -> Timer) :
  (forall x, timer_id (g x) = timer_id x) ->
  forall x, timer_id (if timer_id x =? id then g x else x) = timer_id x.
Proof. intros Hg x. destruct (timer_id x =? id); auto. Qed.

(** Goals [IdsOK next l]. *)
Ltac ids :=
  repeat first
    [ assumption
    | apply IdsOK_nil
    | apply IdsOK_cancel
    | apply IdsOK_snoc; [reflexivity|]
    | apply IdsOK_interims
    | apply IdsOK_map;
      [ let x := fresh "x" in
        intros x; cbn; destruct (Nat.eqb (timer_id x) _); reflexivity | ] ].

Lemma inject_nat_nonneg (n : nat) : (0 <= inject_Z (Z.of_nat n))%Q.
Proof. change 0%Q with (inject_Z 0). rewrite <- Zle_Qle. lia. Qed.

Ltac nat_nonneg :=
  repeat match goal with
  | |- context [inject_Z (Z.of_nat ?x)] =>
      lazymatch goal with
      | _ : (0 <= inject_Z (Z.of_nat x))%Q |- _ => fail
      | _ => pose proof (inject_nat_nonneg x)
      end
  end.

(** Goals [DuesOK now l]. *)
Ltac dues :=
  let tm := fresh "tm" in let Hin := fresh "Hin" in
  intros tm Hin; in_cases;
  repeat match goal with
  | H : DuesOK _ ?l, Hin : In ?x ?l |- _ => destruct (H x Hin); clear Hin
  end;
  cbn in *; eqb_cases; cbn in *; nat_nonneg;
  (split;
   [ try lra
   | try (intros ? [= <-]; split; [lra | reflexivity]);
     try discriminate;
     try (let p := fresh "p" in let Hp := fresh "Hp" in
          intros p Hp;
          match goal with
          | H : forall q, _ = Some q -> _ |- _ =>
              destruct (H p Hp);
              split; [lra | first [assumption | reflexivity]]
          end);
     auto ]).

(** Evaluation that leaves the arithmetic, the queue operations and the
    speech engine's [startListening] folded. *)
Ltac run_lazy :=
  lazy -[stt_startListening cancel interimTimers
         Qplus Qmult Qmax Qmin Qle_bool Qle Qlt laterOf
         cappedDuration wordCount pickMock matchCommand toFixed0
         toUpperCase toLowerCase trim intent_name
         String.append split inject_Z Z.of_nat Nat.add Nat.eqb
         List.app List.length
         List.map List.filter In OwnedBy IdsOK DuesOK isTtsTimer
         isFinalTimer isPollTimer mock_delay mock_text countIf
         sttEvents ttsEvents vadEvents
         isFinalTranscript isSttCallback isSilence timerById
         timer_id timer_due timer_period timer_action].

Ltac run_js :=
  run_lazy;
  repeat (progress cbn [timer_id timer_due timer_period timer_action];
          run_lazy).

(** Goals bounding the held handles by the next handle. *)
Ltac handles :=
  let i := fresh "i" in let Hh := fresh "Hh" in
  intros i Hh; cbn in Hh |- *;
  repeat (destruct Hh as [Hh|Hh]); try discriminate;
  first
    [ match goal with
      | Hold : forall j, _ -> j < ?n |- _ =>
          assert (i < n) by (apply Hold; cbn; auto 6); lia
      end
    | injection Hh as <-; lia ].

(** Goals keeping the held handles apart from the synthesis timers. *)
Ltac tts_private :=
  let tm := fresh "tm" in let Hin := fresh "Hin" in let Hk := fresh "Hk" in
  intros tm Hin Hk; in_cases; cbn in *; eqb_cases; cbn in *;
  try discriminate;
  repeat match goal with
  | Hp : forall x, In x ?l -> isTtsTimer x = true -> _,
    Hi : In ?x ?l |- _ =>
      lazymatch goal with
      | _ : timer_id x < _ |- _ => fail
      | _ =>
          try (pose proof (Hp x Hi ltac:(assumption)));
          match goal with
          | Hids : IdsOK _ l |- _ => pose proof (proj2 Hids x Hi)
          end
      end
  end;
  repeat split;
  first
    [ intuition congruence
    | let Heq := fresh "Heq" in
      intros Heq;
      first
        [ match goal with
          | Hold : forall j, _ -> j < ?n |- _ =>
              match type of Heq with
              | _ = Some ?j =>
                  assert (j < n) by (apply Hold; cbn; auto 6); lia
              end
          end
        | injection Heq as Heq; lia ] ].

(** The nine parts of [WellFormed], each evaluated by [run]. *)
Ltac wf_with run :=
  constructor; run;
  [ try tauto; try discriminate
  | try discriminate; try tauto; try (intuition congruence)
  | owned | owned | ids | dues | try assumption
  | handles | tts_private ].

Ltac wf_parts := wf_with ltac:(cbn).

Ltac wf_intro w :=
  intros [Hready Hlisten Htts Hfinal Hids Hdues Hcfg Hhandles Hpriv];
  open_world w;
  cbn in Hready, Hlisten, Htts, Hfinal, Hids, Hdues, Hcfg, Hhandles, Hpriv.

Lemma initialWorld_wf : WellFormed initialWorld.
Proof.
  constructor; cbn; try discriminate.
  - intros ? [].
  - intros ? [].
  - apply IdsOK_nil.
  - intros ? [].
  - intros i [H|[H|[H|H]]]; discriminate.
  - intros ? [].
Qed.

Lemma initialize_wf w :
  WellFormed w -> WellFormed (exec (initialize MockSDK) w).
Proof. wf_intro w. wf_parts. Qed.

Lemma stopListening_wf w : WellFormed w -> WellFormed (exec stopListening w).
Proof. wf_intro w. destruct cRec, sCur, sInt, vInt, cSt; wf_parts. Qed.

Lemma tts_stop_wf w : WellFormed w -> WellFormed (exec tts_stop w).
Proof. wf_intro w. destruct tCur, tCb as [[]|]; wf_parts. Qed.

Lemma stopSpeaking_wf w : WellFormed w -> WellFormed (exec stopSpeaking w).
Proof. wf_intro w. destruct tCur, tCb as [[]|], cSt; wf_parts. Qed.

Lemma destroy_wf w : WellFormed w -> WellFormed (exec destroy w).
Proof.
  wf_intro w. destruct sCur, sInt, tCur, tCb as [[]|], vInt; wf_parts.
Qed.

Lemma cappedDuration_bounds (n : nat) :
  (1000 <= cappedDuration n /\ cappedDuration n <= 5000)%Q.
Proof.
  unfold cappedDuration, durationMs. split.
  - apply Q.min_glb; [apply Q.le_max_l | lra].
  - apply Q.le_min_r.
Qed.

Lemma run_ok {A} (c : M A) (w : World) (a : A) :
  result c w = Ok a -> c w = (Ok a, exec c w).
Proof. unfold result, exec. destruct (c w) as [r w']. cbn. now intros ->. Qed.

Lemma tts_stop_ok w : result tts_stop w = Ok tt.
Proof. open_world w. destruct tCur, tCb as [[]|]; reflexivity. Qed.

Lemma stopListening_ok w : result stopListening w = Ok tt.
Proof. open_world w. destruct cRec, sCur, sInt, vInt, cSt; reflexivity. Qed.

Lemma pickMock_delay r mock :
  pickMock r = Some mock -> (0 <= mock_delay mock)%Q.
Proof.
  unfold pickMock. intros H. apply nth_error_In in H.
  cbn in H. repeat (destruct H as [<-|H]; [cbn; lra|]). destruct H.
Qed.

Lemma startListening_unfold r1 r2 w :
  exec (startListening r1 r2) w =
  if negb (isInitialized (svc w)) then
    exec (addThought "Cannot listen: voice pipeline not initialized"
                     th_error) w
  else if state_eqb (currentState (svc w)) listening then
    exec (addThought "Already listening..." th_warning) w
  else
    exec (try_catch (startListening_try r1 r2) startListening_catch)
         (if tts_isSpeaking (tts w) then exec tts_stop w else w).
Proof.
  unfold startListening, tts_getIsSpeaking, when.
  unfold exec at 1. unfold bind, gets. cbv beta iota.
  destruct (negb (isInitialized (svc w))); [reflexivity|].
  destruct (state_eqb (currentState (svc w)) listening); [reflexivity|].
  destruct (tts_isSpeaking (tts w)); [|reflexivity].
  rewrite (run_ok tts_stop w tt (tts_stop_ok w)). reflexivity.
Qed.

(** [WhisperSTT.startListening] in closed form. *)
Lemma stt_startListening_closed r1 r2 w mock m :
  stt_initialized (stt w) = true ->
  stt_isListening (stt w) = false ->
  pickMock r1 = Some mock ->
  List.length (split space (mock_text mock)) = S m ->
  stt_startListening r1 r2 w =
  (Ok tt,
   let closure := List.length (partialText w) in
   let w1 := set_partialText (partialText w ++ [(closure, "")])%list
               (set_stt_isListening true w) in
   let w2 := afterInterims closure (split space (mock_text mock)) 0 (S m) w1 in
   set_stt_currentTimeout (Some (nextTimerId w2))
     (set_timers
        (timers w2
         ++ [{| timer_id := nextTimerId w2;
                timer_due := (clock w2 + mock_delay mock)%Q;
                timer_period := None;
                timer_action := stt_final mock r2 |}])%list
        (set_nextTimerId (S (nextTimerId w2)) w2))).
Proof.
  intros Hi Hl Hp Hn.
  unfold stt_startListening, bind, gets, modify, newPartialText.
  cbv beta iota. rewrite Hi. cbn [negb]. cbv beta iota. rewrite Hl, Hp.
  cbv beta iota zeta. rewrite scheduleInterims_closed, Hn. reflexivity.
Qed.

Lemma stt_startListening_undefined r1 r2 w :
  stt_initialized (stt w) = true ->
  stt_isListening (stt w) = false ->
  pickMock r1 = None ->
  stt_startListening r1 r2 w =
  (Throw (JsError "Cannot read properties of undefined (reading 'text')"),
   set_stt_isListening true w).
Proof.
  intros Hi Hl Hp. unfold stt_startListening, bind, gets, modify.
  cbv beta iota. rewrite Hi. cbn [negb]. cbv beta iota. rewrite Hl, Hp.
  reflexivity.
Qed.

Lemma stt_startListening_busy r1 r2 w :
  stt_initialized (stt w) = true ->
  stt_isListening (stt w) = true ->
  stt_startListening r1 r2 w = (Ok tt, w).
Proof.
  intros Hi Hl. unfold stt_startListening, bind, gets.
  cbv beta iota. rewrite Hi. cbn [negb]. cbv beta iota. rewrite Hl.
  reflexivity.
Qed.

Lemma startListening_wf r1 r2 w :
  WellFormed w -> WellFormed (exec (startListening r1 r2) w).
Proof.
  intros Hwf. rewrite startListening_unfold.
  destruct (negb (isInitialized (svc w))) eqn:Ei.
  { revert Hwf. wf_intro w. wf_parts. }
  destruct (state_eqb (currentState (svc w)) listening) eqn:Es.
  { revert Hwf. wf_intro w. wf_parts. }
  assert (Hwf1 : WellFormed (if tts_isSpeaking (tts w) then exec tts_stop w else w)).
  { destruct (tts_isSpeaking (tts w)); [apply tts_stop_wf|]; exact Hwf. }
  assert (Hi1 : isInitialized (svc (if tts_isSpeaking (tts w) then exec tts_stop w else w)) = true).
  { apply negb_false_iff in Ei. clear -Ei. open_world w. cbn in Ei. subst.
    destruct tSpk, tCur, tCb as [[]|]; reflexivity. }
  generalize dependent (if tts_isSpeaking (tts w) then exec tts_stop w else w).
  clear. intros w Hwf Hi. revert Hwf. 
  wf_intro w. cbn in Hi. subst cInit.
  destruct Hready as (-> & -> & -> & -> & -> & ->); [reflexivity|].
  destruct cStt as [mid mname lang vadOn silence maxMs].
  cbn in Hcfg.
  destruct (pickMock r1) as [mock|] eqn:Hp.
  - pose proof (pickMock_delay _ _ Hp) as Hdelay.
    destruct (split_nonempty space (mock_text mock)) as [m Hm].
    destruct vadOn, sLis;
      wf_with ltac:(
        run_js;
        rewrite ?(stt_startListening_busy r1 r2) by reflexivity;
        rewrite ?(stt_startListening_closed r1 r2 _ mock m)
          by (reflexivity || assumption);
        run_js).
  - destruct vadOn, sLis;
      wf_with ltac:(
        run_js;
        rewrite ?(stt_startListening_busy r1 r2) by reflexivity;
        rewrite ?(stt_startListening_undefined r1 r2)
          by (reflexivity || assumption);
        run_js).
Qed.

(** The part of [speakAnalysis] after the listening check: the [try]
    block, and the [catch] and [finally] blocks when [speak] throws. *)
Lemma speakAnalysis_unfold text w :
  exec (speakAnalysis text) w =
  if negb (isInitialized (svc w)) then
    exec (addThought "Cannot speak: voice pipeline not initialized"
                     th_error) w
  else
    exec (fun w0 =>
            match speakAnalysis_try text w0 with
            | (Ok _, w') => (Ok tt, w')
            | (Throw e, w') =>
                (speakAnalysis_catch e ;; speakAnalysis_finally) w'
            end)
         (if stt_isListening (stt w) then exec stopListening w else w).
Proof.
  unfold speakAnalysis, stt_getIsListening, when.
  unfold exec at 1. unfold bind at 1 2 3, gets. cbv beta iota.
  destruct (negb (isInitialized (svc w))); [reflexivity|].
  destruct (stt_isListening (stt w)); [|reflexivity].
  rewrite (run_ok stopListening w tt (stopListening_ok w)). reflexivity.
Qed.

Lemma speakAnalysis_wf text w :
  WellFormed w -> WellFormed (exec (speakAnalysis text) w).
Proof.
  pose proof (cappedDuration_bounds (wordCount text)) as [Hlo Hhi].
  intros Hwf. rewrite speakAnalysis_unfold.
  destruct (negb (isInitialized (svc w))).
  { revert Hwf. wf_intro w. wf_parts. }
  assert (Hwf1 : WellFormed (if stt_isListening (stt w)
                             then exec stopListening w else w)).
  { destruct (stt_isListening (stt w)); [apply stopListening_wf|]; exact Hwf. }
  generalize dependent (if stt_isListening (stt w)
                        then exec stopListening w else w).
  clear Hwf. intros w1. clear w. revert w1. intros w. wf_intro w.
  destruct tInit, tSpk, tCur, tCb as [[]|]; wf_with ltac:(run_js).
Qed.

(* ------------------------------------------------------------------ *)
(** ** The event loop keeps worlds well formed *)

Lemma laterOf_l a b : (a <= laterOf a b)%Q.
Proof.
  unfold laterOf. destruct (Qle_bool a b) eqn:E; [|lra].
  apply Qle_bool_iff. exact E.
Qed.

Lemma laterOf_r a b : (b <= laterOf a b)%Q.
Proof.
  unfold laterOf. destruct (Qle_bool a b) eqn:E; [lra|].
  assert (~ (a <= b)%Q) by (intros H; apply Qle_bool_iff in H; congruence).
  lra.
Qed.

Lemma laterOf_lub a b c : (a <= c)%Q -> (b <= c)%Q -> (laterOf a b <= c)%Q.
Proof. unfold laterOf. destruct (Qle_bool a b); auto. Qed.

Lemma laterOf_eq a b : (a <= b)%Q -> laterOf a b = b.
Proof.
  intros H. unfold laterOf. apply Qle_bool_iff in H. now rewrite H.
Qed.

Lemma nextTimer_in l tm : nextTimer l = Some tm -> In tm l.
Proof.
  revert tm. induction l as [|a l IH]; intros tm; cbn; [discriminate|].
  destruct (nextTimer l) as [tm'|].
  - destruct (Qle_bool (timer_due a) (timer_due tm')); intros [= <-]; auto.
  - intros [= <-]. auto.
Qed.

(** The timer that fires next is due no later than any other. *)
Lemma nextTimer_min l tm :
  nextTimer l = Some tm ->
  forall x, In x l -> (timer_due tm <= timer_due x)%Q.
Proof.
  revert tm. induction l as [|a l IH]; intros tm; cbn; [discriminate|].
  destruct (nextTimer l) as [tm'|] eqn:E.
  - specialize (IH tm' eq_refl).
    destruct (Qle_bool (timer_due a) (timer_due tm')) eqn:Ele;
      intros [= <-] x [<-|Hin].
    + lra.
    + apply Qle_bool_iff in Ele. specialize (IH x Hin). lra.
    + assert (~ (timer_due a <= timer_due tm')%Q) as Hn.
      { intros Hc. apply Qle_bool_iff in Hc. congruence. }
      lra.
    + auto.
  - intros [= <-] x [<-|Hin]; [lra|].
    destruct l; [destruct Hin|]. cbn in E.
    destruct (nextTimer l); [destruct (Qle_bool _ _)|]; discriminate.
Qed.

Lemma nextTimer_none l : nextTimer l = None -> l = [].
Proof.
  destruct l as [|a l]; [reflexivity|]. cbn.
  destruct (nextTimer l); [destruct (Qle_bool _ _)|]; discriminate.
Qed.

Lemma fire_wf tm w :
  WellFormed w -> nextTimer (timers w) = Some tm -> WellFormed (fire tm w).
Proof.
  intros Hwf Hnext.
  pose proof (nextTimer_in _ _ Hnext) as Hin.
  pose proof (nextTimer_min _ _ Hnext) as Hmin. clear Hnext.
  revert Hwf Hin Hmin. wf_intro w. cbn [timers]. intros Hin Hmin.
  destruct tm as [id due per act].
  unfold fire. cbn [timers clock timer_id timer_due timer_period timer_action set_clock].
  cbn [timer_due] in Hmin.
  destruct (Hdues _ Hin) as [Hck Hper]. cbn [timer_due timer_period] in Hck, Hper.
  assert (Hck' : (ck <= laterOf ck due)%Q) by apply laterOf_l.
  assert (Hdues' : DuesOK (laterOf ck due) tms).
  { intros x Hx. destruct (Hdues x Hx) as [H1 H2]. split; [|exact H2].
    apply laterOf_lub; auto. }
  assert (Hdue' : (due <= laterOf ck due)%Q) by apply laterOf_r.
  generalize dependent (laterOf ck due). intros ck' Hck' Hdues' Hdue'.
  pose proof (Htts _ Hin) as Ht. pose proof (Hfinal _ Hin) as Hf.
  cbn [timer_id] in Ht, Hf.
  clear Hdues Hmin.
  destruct per as [p|].
  - destruct (Hper p eq_refl) as [Hp Hpoll]. clear Hper.
    destruct act; try discriminate Hpoll. clear Ht Hf Hpoll.
    destruct vAct, speechDetected, vCb as [[]|]; wf_with ltac:(run_js).
  - clear Hper. destruct act.
    + clear Ht Hf. destruct sLis, sCb as [[]|]; wf_with ltac:(run_js).
    + destruct (Hf eq_refl) as [-> ->]. clear Ht Hf.
      destruct (matchCommand (mock_text mock)) as [i k] eqn:Hmc.
      destruct sCb as [[]|], i;
        wf_with ltac:(run_js; rewrite ?Hmc; run_js).
    + destruct (Ht eq_refl) as [-> ->]. clear Ht Hf.
      destruct resolve, tCb as [[]|], cSt; wf_with ltac:(run_js).
    + clear Ht Hf.
      destruct vAct, speechDetected, vCb as [[]|]; wf_with ltac:(run_js).
    + clear Ht Hf.
      destruct cSt; try solve [wf_with ltac:(run_js)].
      match goal with
      | |- WellFormed (exec _ ?W) =>
          change (WellFormed
                    (exec stopListening
                       (exec (addThought "Max recording duration reached"
                                         th_warning) W)))
      end.
      apply stopListening_wf. wf_with ltac:(run_js).
    + clear Ht Hf. destruct cSt; wf_with ltac:(run_js).
Qed.

Lemma set_clock_wf t w :
  WellFormed w ->
  (forall tm, In tm (timers w) -> (t < timer_due tm)%Q) ->
  WellFormed (set_clock (laterOf (clock w) t) w).
Proof.
  wf_intro w. cbn [timers clock]. intros Hlt.
  constructor; cbn; auto.
  intros tm Hin. destruct (Hdues tm Hin) as [H1 H2]. split; [|exact H2].
  apply laterOf_lub; [exact H1|]. specialize (Hlt tm Hin). lra.
Qed.

Lemma advance_wf fuel t w w' :
  WellFormed w -> advance fuel t w = Some w' -> WellFormed w'.
Proof.
  revert w. induction fuel as [|fuel IH]; intros w Hwf; cbn.
  - destruct (nextTimer (timers w)) as [tm|] eqn:En.
    + destruct (Qle_bool (timer_due tm) t) eqn:El; [discriminate|].
      intros [= <-]. apply set_clock_wf; [exact Hwf|].
      intros x Hx. pose proof (nextTimer_min _ _ En x Hx).
      assert (~ (timer_due tm <= t)%Q).
      { intros Hc. apply Qle_bool_iff in Hc. congruence. }
      lra.
    + intros [= <-]. apply set_clock_wf; [exact Hwf|].
      apply nextTimer_none in En. rewrite En. intros ? [].
  - destruct (nextTimer (timers w)) as [tm|] eqn:En.
    + destruct (Qle_bool (timer_due tm) t) eqn:El.
      * apply IH. apply fire_wf; assumption.
      * intros [= <-]. apply set_clock_wf; [exact Hwf|].
        intros x Hx. pose proof (nextTimer_min _ _ En x Hx).
        assert (~ (timer_due tm <= t)%Q).
        { intros Hc. apply Qle_bool_iff in Hc. congruence. }
        lra.
    + intros [= <-]. apply set_clock_wf; [exact Hwf|].
      apply nextTimer_none in En. rewrite En. intros ? [].
Qed.

(** Every reachable world is well formed. *)
Lemma Reachable_WellFormed w : Reachable w -> WellFormed w.
Proof.
  induction 1.
  - apply initialWorld_wf.
  - apply initialize_wf; assumption.
  - apply startListening_wf; assumption.
  - apply stopListening_wf; assumption.
  - apply speakAnalysis_wf; assumption.
  - apply stopSpeaking_wf; assumption.
  - apply destroy_wf; assumption.
  - eapply advance_wf; eassumption.
Qed.


(* ------------------------------------------------------------------ *)
(** ** Failures caught by the steady-state operations *)

Lemma startListening_run r1 r2 w :
  startListening r1 r2 w =
  if negb (isInitialized (svc w)) then
    addThought "Cannot listen: voice pipeline not initialized" th_error w
  else if state_eqb (currentState (svc w)) listening then
    addThought "Already listening..." th_warning w
  else
    try_catch (startListening_try r1 r2) startListening_catch
      (if tts_isSpeaking (tts w) then exec tts_stop w else w).
Proof.
  unfold startListening, tts_getIsSpeaking, when.
  unfold bind at 1 2 3 4, gets. cbv beta iota.
  destruct (negb (isInitialized (svc w))); [reflexivity|].
  destruct (state_eqb (currentState (svc w)) listening); [reflexivity|].
  destruct (tts_isSpeaking (tts w)); [|reflexivity].
  rewrite (run_ok tts_stop w tt (tts_stop_ok w)). reflexivity.
Qed.










(* ------------------------------------------------------------------ *)
(** ** Counting timers and events *)

Lemma countIf_app {A} (p : A -> bool) (a b : list A) :
  countIf p (a ++ b) = countIf p a + countIf p b.
Proof. unfold countIf. rewrite filter_app, length_app. reflexivity. Qed.

Lemma countIf_cancel_le (p : Timer -> bool) id l :
  countIf p (cancel id l) <= countIf p l.
Proof.
  unfold countIf, cancel. induction l as [|a l IH]; cbn; [lia|].
  destruct (negb (timer_id a =? id)); cbn; destruct (p a); cbn; lia.
Qed.

Lemma countIf_cancel_in (p : Timer -> bool) tm l :
  In tm l -> p tm = true ->
  countIf p (cancel (timer_id tm) l) < countIf p l.
Proof.
  unfold countIf, cancel. induction l as [|a l IH]; cbn; [intros []|].
  intros [->|Hin] Hp.
  - rewrite Nat.eqb_refl. cbn. rewrite Hp. cbn.
    pose proof (countIf_cancel_le p (timer_id tm) l) as H.
    unfold countIf, cancel in H. lia.
  - specialize (IH Hin Hp).
    destruct (negb (timer_id a =? timer_id tm)); cbn; destruct (p a); cbn; lia.
Qed.

Lemma countIf_map_le {A} (p : A -> bool) (f : A -> A) (l : list A) :
  (forall x, p (f x) = true -> p x = true) ->
  countIf p (map f l) <= countIf p l.
Proof.
  intros Hf. unfold countIf. induction l as [|a l IH]; cbn; [lia|].
  destruct (p (f a)) eqn:E.
  - rewrite (Hf a E). cbn. lia.
  - destruct (p a); cbn; lia.
Qed.


(** Timers of one kind that all carry the held handle are at most one. *)
Lemma OwnedBy_count kind busy handle next l :
  OwnedBy kind busy handle l -> IdsOK next l -> countIf kind l <= 1.
Proof.
  intros Ho [Hnd _].
  induction l as [|a l IH]; [cbn; lia|].
  cbn in Hnd. inversion Hnd as [|? ? Hnot Hnd']; subst.
  assert (Ho' : OwnedBy kind busy handle l).
  { intros x Hx. apply Ho. now right. }
  specialize (IH Ho' Hnd').
  unfold countIf in *. cbn. destruct (kind a) eqn:Ea; [|exact IH].
  cbn. rewrite (proj2 (length_zero_iff_nil _)); [lia|].
  destruct (filter kind l) as [|b rest] eqn:Ef; [reflexivity|].
  assert (Hb : In b (filter kind l)) by (rewrite Ef; now left).
  apply filter_In in Hb as [Hb Hkb].
  destruct (Ho a (or_introl eq_refl) Ea) as [_ Ha].
  destruct (Ho b (or_intror Hb) Hkb) as [_ Hb'].
  exfalso. apply Hnot. rewrite in_map_iff. exists b. split; [congruence|exact Hb].
Qed.

Lemma WellFormed_one_final w : WellFormed w -> countFinalTimers w <= 1.
Proof.
  intros Hwf. eapply OwnedBy_count; [apply (wf_final _ Hwf) | apply (wf_ids _ Hwf)].
Qed.


(* ------------------------------------------------------------------ *)
(** ** Final transcripts come from final timers *)

(** Bounds for the count of a kind over a queue built by cancelling and
    mapping. *)
Ltac count_list p l :=
  lazymatch l with
  | cancel ?id ?l' =>
      lazymatch goal with
      | _ : countIf p (cancel id l') <= countIf p l' |- _ => idtac
      | _ => pose proof (countIf_cancel_le p id l'); count_list p l'
      end
  | @map Timer Timer ?f ?l' =>
      lazymatch goal with
      | _ : countIf p (map f l') <= countIf p l' |- _ => idtac
      | _ =>
          assert (countIf p (map f l') <= countIf p l')
            by (apply countIf_map_le;
                let x := fresh "x" in
                intros x; cbn; destruct (Nat.eqb _ _);
                first [exact (fun H => H) | lazy; discriminate]);
          count_list p l'
      end
  | _ => idtac
  end.

Ltac count_facts :=
  repeat match goal with
  | |- context [countIf ?p (cancel ?id ?l)] =>
      lazymatch goal with
      | _ : countIf p (cancel id l) <= countIf p l |- _ => fail
      | _ => count_list p (cancel id l)
      end
  | |- context [countIf ?p (@map Timer Timer ?f ?l)] =>
      lazymatch goal with
      | _ : countIf p (map f l) <= countIf p l |- _ => fail
      | _ => count_list p (@map Timer Timer f l)
      end
  end.

Ltac count_solve :=
  unfold countFinalEvents, countFinalTimers, events;
  run_js; rewrite ?map_app, ?countIf_app;
  cbn [map snd countIf filter List.length isFinalTranscript isFinalTimer
       timer_action];
  count_facts; try lia.

(** Firing the next timer never increases the number of final
    transcripts delivered plus final timers pending: only a final timer
    delivers a final transcript, and it leaves the queue when it fires. *)
Lemma fire_final_count tm w :
  WellFormed w -> nextTimer (timers w) = Some tm ->
  countFinalEvents (fire tm w) + countFinalTimers (fire tm w)
  <= countFinalEvents w + countFinalTimers w.
Proof.
  intros Hwf Hnext.
  pose proof (nextTimer_in _ _ Hnext) as Hin. clear Hnext.
  revert Hwf Hin. wf_intro w. cbn [timers]. intros Hin.
  destruct tm as [id due per act].
  destruct (Hdues _ Hin) as [_ Hper]. cbn [timer_period] in Hper.
  pose proof (fun H => countIf_cancel_in isFinalTimer _ _ Hin H) as Hstrict.
  cbn [timer_id] in Hstrict.
  destruct per as [p|].
  - destruct (Hper p eq_refl) as [_ Hpoll].
    destruct act; try discriminate Hpoll. clear Hstrict.
    destruct vAct, speechDetected, vCb as [[]|]; count_solve.
  - destruct act.
    + clear Hstrict. destruct sLis, sCb as [[]|]; count_solve.
    + specialize (Hstrict eq_refl).
      destruct (matchCommand (mock_text mock)) as [i k] eqn:Hmc.
      destruct sLis, sCb as [[]|], i;
        unfold countFinalEvents, countFinalTimers, events;
        run_js; rewrite ?Hmc; count_solve.
    + clear Hstrict. destruct resolve, tCb as [[]|], cSt; count_solve.
    + clear Hstrict. destruct vAct, speechDetected, vCb as [[]|]; count_solve.
    + clear Hstrict. destruct cSt, cRec, sCur, sInt, vInt; count_solve.
    + clear Hstrict. destruct cSt; count_solve.
Qed.

Lemma advance_final_count fuel t w w' :
  WellFormed w -> advance fuel t w = Some w' ->
  countFinalEvents w' + countFinalTimers w'
  <= countFinalEvents w + countFinalTimers w.
Proof.
  assert (Hclock : forall x w0,
             countFinalEvents (set_clock x w0) + countFinalTimers (set_clock x w0)
             = countFinalEvents w0 + countFinalTimers w0) by reflexivity.
  revert w. induction fuel as [|fuel IH]; intros w Hwf; cbn.
  - destruct (nextTimer (timers w)) as [tm|];
      [destruct (Qle_bool (timer_due tm) t); [discriminate|]|];
      intros [= <-]; rewrite Hclock; lia.
  - destruct (nextTimer (timers w)) as [tm|] eqn:En.
    + destruct (Qle_bool (timer_due tm) t).
      * intros Ha. pose proof (fire_final_count tm w Hwf En).
        pose proof (IH _ (fire_wf tm w Hwf En) Ha). lia.
      * intros [= <-]. rewrite Hclock. lia.
    + intros [= <-]. rewrite Hclock. lia.
Qed.

(* ------------------------------------------------------------------ *)
(** ** Starting to listen while already listening *)

(** C6. In any reachable world whose state is [listening], a call of
    [startListening()] returns at once: the world is unchanged except for
    one warning thought, so no timer is added; and however long time then
    passes, at most one final transcript is delivered. *)
Theorem C6_startListening_while_listening (w : World) (r1 r2 : Q) :
  Reachable w ->
  currentState (svc w) = listening ->
  startListening r1 r2 w
  = (Ok tt,
     set_log (log w ++ [(clock w, ev_thought "Already listening..."
                                             th_warning)])%list w)
  /\ timers (exec (startListening r1 r2) w) = timers w
  /\ forall fuel t w',
       advance fuel t (exec (startListening r1 r2) w) = Some w' ->
       countFinalEvents w' <= countFinalEvents w + 1.
Proof.
  intros Hreach Hst.
  pose proof (Reachable_WellFormed w Hreach) as Hwf.
  destruct (wf_listening w Hwf Hst) as [Hinit _].
  assert (Hrun : startListening r1 r2 w
                 = (Ok tt,
                    set_log (log w ++ [(clock w, ev_thought
                                          "Already listening..." th_warning)])%list w)).
  { rewrite startListening_run, Hinit, Hst. reflexivity. }
  split; [exact Hrun|]. unfold exec. rewrite Hrun. cbn [snd].
  split; [reflexivity|].
  intros fuel t w' Hadv.
  pose proof (startListening_wf r1 r2 w Hwf) as Hwf'.
  unfold exec in Hwf'. rewrite Hrun in Hwf'. cbn [snd] in Hwf'.
  pose proof (advance_final_count _ _ _ _ Hwf' Hadv) as Hcount.
  pose proof (WellFormed_one_final w Hwf) as Hone.
  unfold countFinalEvents, countFinalTimers, events in *.
  cbn [log timers set_log] in Hcount.
  rewrite map_app, countIf_app in Hcount. cbn in Hcount.
  lia.
Qed.

Lemma unitDraw_0 : unitDraw 0.
Proof. split; [apply Qle_refl | reflexivity]. Defined.

Lemma unitDraw_half : unitDraw (1 # 2).
Proof. split; [discriminate | reflexivity]. Defined.

Lemma readyWorld_reachable : Reachable readyWorld.
Proof. apply reach_initialize, reach_initial. Defined.

Lemma listeningWorld_reachable : Reachable listeningWorld.
Proof.
  apply reach_startListening;
    [apply readyWorld_reachable | apply unitDraw_0 | apply unitDraw_0].
Defined.

(** C6 on a listening session: a second [startListening()] adds no
    timer, and five seconds later one final transcript has been
    delivered. *)
Lemma C6_witness :
  timers (exec (startListening (1 # 2) (1 # 2)) listeningWorld)
  = timers listeningWorld
  /\ match advance 100 5000
             (exec (startListening (1 # 2) (1 # 2)) listeningWorld) with
     | Some w' => countFinalEvents w' <= countFinalEvents listeningWorld + 1
     | None => False
     end.
Proof.
  destruct (C6_startListening_while_listening
              listeningWorld (1 # 2) (1 # 2)
              listeningWorld_reachable eq_refl) as (_ & Htimers & Hfinal).
  split; [exact Htimers|].
  specialize (Hfinal 100 5000%Q).
  destruct (advance 100 5000
              (exec (startListening (1 # 2) (1 # 2)) listeningWorld))
    as [w'|] eqn:E.
  - apply Hfinal. reflexivity.
  - vm_compute in E. discriminate E.
Defined.

(* ------------------------------------------------------------------ *)
(** ** An engine that is not listening delivers no transcript *)

Lemma sttEvents_app a b : sttEvents (a ++ b) = (sttEvents a ++ sttEvents b)%list.
Proof.
  induction a as [|[t e] a IH]; [reflexivity|].
  cbn. destruct e; cbn; rewrite IH; reflexivity.
Qed.

Ltac silent_solve :=
  unfold fire, rearm;
  cbn [timer_id timer_due timer_period timer_action];
  run_js; rewrite ?sttEvents_app; cbn [sttEvents app];
  rewrite ?app_nil_r; split; reflexivity.

(** While the listening flag is cleared, no timer sets it and no timer
    delivers a transcript. *)
Lemma fire_silent tm w :
  stt_isListening (stt w) = false ->
  stt_isListening (stt (fire tm w)) = false
  /\ sttEvents (log (fire tm w)) = sttEvents (log w).
Proof.
  intros Hl. open_world w. cbn in Hl. subst sLis.
  destruct tm as [id due per act].
  destruct act.
  - destruct per; silent_solve.
  - destruct per; silent_solve.
  - destruct per, resolve, tCb as [[]|], cSt; silent_solve.
  - destruct per, vAct, speechDetected, vCb as [[]|]; silent_solve.
  - destruct per, cSt, cRec, sCur, sInt, vInt; silent_solve.
  - destruct per, cSt; silent_solve.
Qed.

Lemma advance_silent fuel t w w' :
  stt_isListening (stt w) = false ->
  advance fuel t w = Some w' ->
  stt_isListening (stt w') = false
  /\ sttEvents (log w') = sttEvents (log w).
Proof.
  revert w. induction fuel as [|fuel IH]; intros w Hl; cbn.
  - destruct (nextTimer (timers w)) as [tm|];
      [destruct (Qle_bool (timer_due tm) t); [discriminate|]|];
      intros [= <-]; auto.
  - destruct (nextTimer (timers w)) as [tm|] eqn:En.
    + destruct (Qle_bool (timer_due tm) t).
      * intros Ha. destruct (fire_silent tm w Hl) as [Hl' He].
        destruct (IH _ Hl' Ha) as [Hl'' He']. split; congruence.
      * intros [= <-]. auto.
    + intros [= <-]. auto.
Qed.

(* ------------------------------------------------------------------ *)
(** ** Speaking while listening *)





(* ------------------------------------------------------------------ *)
(** ** Timers of the speech engine *)







(* ------------------------------------------------------------------ *)
(** ** The synthesis timer *)


Lemma IdsOK_inj next l a b :
  IdsOK next l -> In a l -> In b l -> timer_id a = timer_id b -> a = b.
Proof.
  intros [Hnd _]. induction l as [|x l IH]; [intros []|].
  cbn in Hnd. inversion Hnd as [|? ? Hnot Hnd']; subst.
  intros [->|Ha] [->|Hb] Heq; auto.
  - exfalso. apply Hnot. rewrite Heq. apply in_map. exact Hb.
  - exfalso. apply Hnot. rewrite <- Heq. apply in_map. exact Ha.
Qed.

(** Goals [In tm0 l] for a timer that the queue operations leave alone. *)
Ltac keep_in tm0 :=
  repeat first
    [ assumption
    | apply in_or_app; left
    | apply in_cancel; split; [|congruence]
    | apply in_map_iff; exists tm0; split;
      [ cbn;
        match goal with
        | |- context [Nat.eqb (timer_id tm0) ?j] =>
            destruct (Nat.eqb_spec (timer_id tm0) j);
            [contradiction | reflexivity]
        end | ] ].












(* ------------------------------------------------------------------ *)
(** ** The activity detector's poll *)

Lemma vadEvents_app a b : vadEvents (a ++ b) = (vadEvents a ++ vadEvents b)%list.
Proof.
  induction a as [|[t e] a IH]; [reflexivity|].
  cbn. destruct e; cbn; rewrite IH; reflexivity.
Qed.

Lemma timerById_snoc_fresh n l tm :
  (forall x, In x l -> timer_id x < n) -> timer_id tm = n ->
  timerById n (l ++ [tm]) = Some tm.
Proof.
  intros Hlt Hid. unfold timerById.
  induction l as [|a l IH]; cbn.
  - rewrite Hid, Nat.eqb_refl. reflexivity.
  - destruct (Nat.eqb_spec (timer_id a) n) as [E|_].
    + specialize (Hlt a (or_introl eq_refl)). lia.
    + apply IH. intros x Hx. apply Hlt. now right.
Qed.

Lemma timerById_map id (f : Timer -> Timer) l :
  (forall x, timer_id (f x) = timer_id x) ->
  timerById id (map f l) = option_map f (timerById id l).
Proof.
  intros Hf. unfold timerById. induction l as [|a l IH]; cbn; [reflexivity|].
  rewrite Hf. destruct (timer_id a =? id); [reflexivity | exact IH].
Qed.

Ltac silence_solve :=
  unfold countSilence, events, fire, rearm;
  cbn [timer_id timer_due timer_period timer_action];
  run_js; rewrite ?map_app, ?countIf_app;
  cbn [map snd countIf filter List.length isSilence]; try lia.

(** No timer ever delivers a "silence" callback. *)
Lemma fire_no_silence tm w : countSilence (fire tm w) = countSilence w.
Proof.
  open_world w. destruct tm as [id due per act]. destruct act.
  - destruct per, sLis, sCb as [[]|]; silence_solve.
  - destruct (matchCommand (mock_text mock)) as [i k] eqn:Hmc.
    destruct per, sLis, sCb as [[]|], i;
      unfold countSilence, events, fire, rearm;
      cbn [timer_id timer_due timer_period timer_action];
      run_js; rewrite ?Hmc; silence_solve.
  - destruct per, resolve, tCb as [[]|], cSt; silence_solve.
  - destruct per, vAct, speechDetected, vCb as [[]|]; silence_solve.
  - destruct per, cSt, cRec, sCur, sInt, vInt; silence_solve.
  - destruct per, cSt; silence_solve.
Qed.

Lemma advance_no_silence fuel t w w' :
  advance fuel t w = Some w' -> countSilence w' = countSilence w.
Proof.
  revert w. induction fuel as [|fuel IH]; intros w; cbn.
  - destruct (nextTimer (timers w)) as [tm|];
      [destruct (Qle_bool (timer_due tm) t); [discriminate|]|];
      intros [= <-]; reflexivity.
  - destruct (nextTimer (timers w)) as [tm|].
    + destruct (Qle_bool (timer_due tm) t).
      * intros Ha. rewrite (IH _ Ha). apply fire_no_silence.
      * intros [= <-]. reflexivity.
    + intros [= <-]. reflexivity.
Qed.

(** A poll whose [speechDetected] is already set does nothing but stay
    armed. *)
Lemma tick_detected id w due p :
  timerById id (timers w)
  = Some {| timer_id := id; timer_due := due; timer_period := Some p;
            timer_action := vad_poll true |} ->
  vadEvents (log (tick id w)) = vadEvents (log w)
  /\ exists due',
       timerById id (timers (tick id w))
       = Some {| timer_id := id; timer_due := due'; timer_period := Some p;
                 timer_action := vad_poll true |}.
Proof.
  intros Hfind. unfold tick. rewrite Hfind.
  open_world w. cbn [timers] in Hfind.
  assert (Hmap : timerById id
                   (map (fun x =>
                           if timer_id x =? id then
                             {| timer_id := timer_id x;
                                timer_due := (timer_due x + p)%Q;
                                timer_period := timer_period x;
                                timer_action := timer_action x |}
                           else x) tms)
                 = Some {| timer_id := id; timer_due := (due + p)%Q;
                           timer_period := Some p;
                           timer_action := vad_poll true |}).
  { rewrite timerById_map, Hfind; [cbn; now rewrite Nat.eqb_refl|].
    intros x. destruct (timer_id x =? id); reflexivity. }
  unfold fire, rearm. cbn [timer_id timer_due timer_period timer_action].
  destruct vAct; (split; [run_js; reflexivity|]);
    exists (due + p)%Q; run_js; exact Hmap.
Qed.

Lemma ticks_detected n id w due p :
  timerById id (timers w)
  = Some {| timer_id := id; timer_due := due; timer_period := Some p;
            timer_action := vad_poll true |} ->
  vadEvents (log (ticks n id w)) = vadEvents (log w).
Proof.
  revert w due. induction n as [|n IH]; intros w due Hfind; [reflexivity|].
  cbn [ticks]. destruct (tick_detected id w due p Hfind) as [He [due' Hf']].
  rewrite (IH _ _ Hf'). exact He.
Qed.

(** The first tick of the poll created by [start()]. *)
Lemma vad_first_tick w :
  WellFormed w ->
  vad_initialized (vad w) = true ->
  vad_onVAD (vad w) = Some VoiceService_onVAD ->
  let w1 := exec vad_start w in
  result vad_start w = Ok tt
  /\ timerById (nextTimerId w) (timers w1)
     = Some {| timer_id := nextTimerId w; timer_due := (clock w + 500)%Q;
               timer_period := Some 500%Q; timer_action := vad_poll false |}
  /\ vadEvents (log w1) = vadEvents (log w)
  /\ vadEvents (log (tick (nextTimerId w) w1))
     = (vadEvents (log w) ++ [((clock w + 500)%Q, true)])%list
  /\ exists due,
       timerById (nextTimerId w) (timers (tick (nextTimerId w) w1))
       = Some {| timer_id := nextTimerId w; timer_due := due;
                 timer_period := Some 500%Q; timer_action := vad_poll true |}.
Proof.
  intros Hwf Hi Hcb. destruct (wf_ids w Hwf) as [_ Hlt]. clear Hwf.
  open_world w. cbn [vad vad_initialized vad_onVAD timers nextTimerId] in *.
  subst vInit vCb. cbv zeta.
  set (new := {| timer_id := nid; timer_due := (ck + 500)%Q;
                 timer_period := Some 500%Q; timer_action := vad_poll false |}).
  assert (Hfind : timerById nid (tms ++ [new]) = Some new)
    by (apply timerById_snoc_fresh; [exact Hlt | reflexivity]).
  split; [reflexivity|]. split; [exact Hfind|]. split; [reflexivity|].
  unfold tick.
  match goal with
  | |- context [timerById nid (timers ?X)] =>
      change (timers X) with (tms ++ [new])%list
  end.
  rewrite Hfind.
  assert (Hck : (ck <= ck + 500)%Q) by lra.
  split.
  - unfold fire, rearm, new.
    cbn [timer_id timer_due timer_period timer_action].
    run_js. rewrite (laterOf_eq _ _ Hck), vadEvents_app. reflexivity.
  - exists (ck + 500 + 500)%Q.
    unfold fire, rearm, new.
    cbn [timer_id timer_due timer_period timer_action].
    run_js.
    rewrite !timerById_map
      by (intros x; destruct (timer_id x =? nid); reflexivity).
    fold new. rewrite Hfind. cbn. rewrite Nat.eqb_refl. cbn.
    rewrite Nat.eqb_refl. reflexivity.
Qed.

(** C8. In a reachable world where the detector is initialised and its
    callback registered, [start()] creates a 500 ms interval whose first
    tick delivers "speech detected" at the call time plus 500 ms, and whose
    later ticks deliver nothing: after any number [n >= 1] of ticks the
    detector has called back exactly once.  No timer of any kind ever
    delivers "silence", however long time passes; [triggerSilence()]
    does. *)
Theorem C8_vad_one_shot :
  (forall w, Reachable w ->
             vad_initialized (vad w) = true ->
             vad_onVAD (vad w) = Some VoiceService_onVAD ->
             let w1 := exec vad_start w in
             result vad_start w = Ok tt
             /\ timerById (nextTimerId w) (timers w1)
                = Some {| timer_id := nextTimerId w;
                          timer_due := (clock w + 500)%Q;
                          timer_period := Some 500%Q;
                          timer_action := vad_poll false |}
             /\ forall n, 1 <= n ->
                  vadEvents (log (ticks n (nextTimerId w) w1))
                  = (vadEvents (log w) ++ [((clock w + 500)%Q, true)])%list)
  /\ (forall tm w, countSilence (fire tm w) = countSilence w)
  /\ (forall fuel t w w',
         advance fuel t w = Some w' -> countSilence w' = countSilence w)
  /\ (forall w, vad_onVAD (vad w) = Some VoiceService_onVAD ->
                countSilence (exec vad_triggerSilence w)
                = S (countSilence w)).
Proof.
  split; [|split; [|split]].
  - intros w Hr Hi Hcb. cbv zeta.
    destruct (vad_first_tick w (Reachable_WellFormed w Hr) Hi Hcb)
      as (Hok & Hfind & _ & Hfirst & due & Hnext).
    split; [exact Hok|]. split; [exact Hfind|].
    intros [|n] Hn; [lia|]. cbn [ticks].
    rewrite (ticks_detected n _ _ due 500%Q Hnext). exact Hfirst.
  - apply fire_no_silence.
  - apply advance_no_silence.
  - intros w Hcb. open_world w. cbn in Hcb. subst vCb.
    destruct cSt; unfold countSilence, events; run_js;
      rewrite ?map_app, ?countIf_app;
      cbn [map snd countIf filter List.length isSilence]; lia.
Qed.

Lemma C8_witness :
  vadEvents (log (ticks 5 (nextTimerId readyWorld) (exec vad_start readyWorld)))
  = [((0 + 500)%Q, true)]
  /\ countSilence (exec vad_triggerSilence readyWorld) = 1.
Proof.
  destruct C8_vad_one_shot as (Hstart & _ & _ & Hsilence).
  destruct (Hstart readyWorld readyWorld_reachable eq_refl eq_refl)
    as (_ & _ & Hticks).
  split.
  - apply (Hticks 5). lia.
  - apply (Hsilence readyWorld eq_refl).
Defined.

(* ------------------------------------------------------------------ *)
(** ** Confidence of the interim transcripts *)

(** Within the timers of one [startListening()] call the confidence grows
    with the word index, and the final confidence is above all of them. *)
Lemma interimConfidence_monotone (i j n : nat) :
  i <= j -> 0 < n ->
  (interimConfidence i n <= interimConfidence j n)%Q.
Proof.
  intros Hij Hn. unfold interimConfidence.
  assert (Hi : (inject_Z (Z.of_nat i) <= inject_Z (Z.of_nat j))%Q)
    by (rewrite <- Zle_Qle; lia).
  assert (Hpos : (0 < inject_Z (Z.of_nat n))%Q).
  { change 0%Q with (inject_Z 0). rewrite <- Zlt_Qlt. lia. }
  assert (Hdiv : (inject_Z (Z.of_nat i) / inject_Z (Z.of_nat n)
                  <= inject_Z (Z.of_nat j) / inject_Z (Z.of_nat n))%Q).
  { unfold Qdiv. apply Qmult_le_compat_r; [exact Hi|].
    apply Qlt_le_weak, Qinv_lt_0_compat, Hpos. }
  lra.
Qed.

Lemma finalConfidence_above (i n : nat) (rnd : Q) :
  i <= n -> 0 < n -> (0 <= rnd)%Q ->
  (interimConfidence i n <= finalConfidence rnd)%Q.
Proof.
  intros Hi Hn Hr. unfold interimConfidence, finalConfidence.
  assert (Hpos : (0 < inject_Z (Z.of_nat n))%Q).
  { change 0%Q with (inject_Z 0). rewrite <- Zlt_Qlt. lia. }
  assert (Hdiv : (inject_Z (Z.of_nat i) / inject_Z (Z.of_nat n) <= 1)%Q).
  { apply Qle_shift_div_r; [exact Hpos|]. rewrite Qmult_1_l.
    rewrite <- Zle_Qle. lia. }
  lra.
Qed.

(** C9, evaluated.  The second session is in state [listening]; two
    interim timers of the first session are still pending and fire inside
    it.  The interim confidences it delivers are 23/40, 1/2, 13/20, 13/20:
    the second is below the first. *)
Theorem C9_leaked_interims_break_monotonicity :
  option_map (fun w => currentState (svc w)) secondSessionStarted
  = Some listening
  /\ option_map (fun w => countIf isInterimTimer (timers w)) firstSessionStopped
     = Some 2
  /\ secondSessionInterims = Some [23 # 40; 1 # 2; 13 # 20; 13 # 20]
  /\ option_map nondecreasing secondSessionInterims = Some false.
Proof. repeat split; vm_compute; reflexivity. Qed.


(* ================================================================== *)
(** * Further properties of the engines and the coordinator *)
(* ================================================================== *)

(* ------------------------------------------------------------------ *)
(** ** Word count and speaking time *)

Lemma split_cons (sep c : ascii) (s : string) :
  split sep (String c s)
  = if Ascii.eqb c sep then EmptyString :: split sep s
    else match split sep s with
         | w :: ws => String c w :: ws
         | [] => [String c EmptyString]
         end.
Proof. reflexivity. Qed.

Lemma split_length (sep : ascii) (s : string) :
  List.length (split sep s) = S (countChar sep s).
Proof.
  induction s as [|c s IH]; [reflexivity|].
  rewrite split_cons. cbn [countChar]. destruct (Ascii.eqb c sep).
  - cbn [List.length]. rewrite IH. reflexivity.
  - destruct (split sep s) as [|x xs]; [discriminate IH|].
    cbn [List.length] in *. rewrite IH. reflexivity.
Qed.

(** X1. The word count [text.split(' ').length] of [PiperTTS.speak] is one
    more than the number of space characters of the text: the empty text
    counts one word, and every extra space between two words counts one
    more. *)
Theorem wordCount_counts_spaces (text : string) :
  wordCount text = S (countChar space text)
  /\ wordCount "" = 1
  /\ wordCount "hello  world" = 3.
Proof.
  split; [apply split_length|]. split; reflexivity.
Qed.





(* ------------------------------------------------------------------ *)
(** ** Phrase selection and confidences *)




Lemma Qfloor_unique (x : Q) (k : Z) :
  (inject_Z k <= x)%Q -> (x < inject_Z (k + 1))%Q -> Qfloor x = k.
Proof.
  intros Hlo Hhi.
  pose proof (Qfloor_le x) as Hf. pose proof (Qlt_floor x) as Hc.
  assert (H1 : (inject_Z (Qfloor x) < inject_Z (k + 1))%Q) by lra.
  assert (H2 : (inject_Z k < inject_Z (Qfloor x + 1))%Q) by lra.
  rewrite <- Zlt_Qlt in H1, H2. lia.
Qed.

Ltac pick_phrase k :=
  exists k; split; [lia|];
  let a := eval vm_compute in (inject_Z (Z.of_nat k)) in
  let b := eval vm_compute in (inject_Z (Z.of_nat (S k))) in
  change (inject_Z (Z.of_nat k)) with a;
  change (inject_Z (Z.of_nat (S k))) with b; lra.

(** A draw [r] with [k <= 6 r < k + 1] picks phrase [k]. *)
Lemma pickMock_index (r : Q) (k : nat) :
  k < 6 ->
  (inject_Z (Z.of_nat k) <= r * 6)%Q ->
  (r * 6 < inject_Z (Z.of_nat (S k)))%Q ->
  pickMock r = nth_error MOCK_TRANSCRIPTS k.
Proof.
  intros Hk Hlo Hhi. unfold pickMock.
  change (inject_Z (Z.of_nat (List.length MOCK_TRANSCRIPTS))) with 6%Q.
  assert (Hfl : Qfloor (r * 6) = Z.of_nat k).
  { apply Qfloor_unique.
    - lra.
    - replace (Z.of_nat k + 1)%Z with (Z.of_nat (S k)) by lia. lra. }
  rewrite Hfl, Nat2Z.id. reflexivity.
Qed.

(** A draw in [0, 1) picks a phrase of the table. *)
Lemma pickMock_unitDraw (r : Q) :
  unitDraw r ->
  exists mock, pickMock r = Some mock /\ In mock MOCK_TRANSCRIPTS
               /\ (1500 <= mock_delay mock <= 3000)%Q.
Proof.
  intros [H0 H1].
  assert (Hk : exists k, k < 6 /\ (inject_Z (Z.of_nat k) <= r * 6)%Q
                         /\ (r * 6 < inject_Z (Z.of_nat (S k)))%Q).
  { destruct (Qlt_le_dec r (1 # 6)); [pick_phrase 0|].
    destruct (Qlt_le_dec r (2 # 6)); [pick_phrase 1|].
    destruct (Qlt_le_dec r (3 # 6)); [pick_phrase 2|].
    destruct (Qlt_le_dec r (4 # 6)); [pick_phrase 3|].
    destruct (Qlt_le_dec r (5 # 6)); [pick_phrase 4|].
    pick_phrase 5. }
  destruct Hk as (k & Hk & Hlo & Hhi).
  rewrite (pickMock_index r k Hk Hlo Hhi).
  do 6 (destruct k as [|k];
        [eexists; split; [reflexivity|];
         split; [cbn; tauto | cbn; split; discriminate]|]).
  lia.
Qed.



(** X5. The two tables agree: every phrase of [MOCK_TRANSCRIPTS] is
    parsed by the coordinator's keyword table to the intent the phrase is
    labelled with, so no phrase the speech engine can deliver is
    [unknown]. *)
Theorem mock_phrases_parse_to_their_label (mock : MockTranscript) :
  In mock MOCK_TRANSCRIPTS ->
  intent_name (fst (matchCommand (mock_text mock))) = mock_intent mock
  /\ fst (matchCommand (mock_text mock)) <> intent_unknown.
Proof.
  intros Hin. cbn in Hin.
  repeat (destruct Hin as [<- | Hin]; [split; [reflexivity | discriminate]|]).
  destruct Hin.
Qed.

Lemma mock_phrases_parse_to_their_label_witness :
  intent_name (fst (matchCommand "help me with commands")) = "help"
  /\ fst (matchCommand "help me with commands") <> intent_unknown.
Proof.
  apply (mock_phrases_parse_to_their_label
           {| mock_text := "help me with commands"; mock_intent := "help";
              mock_delay := 1800 |}).
  cbn. tauto.
Defined.

(* ------------------------------------------------------------------ *)
(** ** From the final transcript back to idle *)

Ltac fire_eval :=
  unfold fire, rearm;
  cbn [timer_id timer_due timer_period timer_action];
  run_js.

(** While the speech engine is not listening, no timer takes an idle
    pipeline out of [idle]. *)
Lemma fire_idle tm w :
  stt_isListening (stt w) = false -> currentState (svc w) = idle ->
  currentState (svc (fire tm w)) = idle.
Proof.
  intros Hl Hs. open_world w. cbn in Hl, Hs. subst sLis cSt.
  destruct tm as [id due per act].
  destruct act.
  - destruct per; fire_eval; reflexivity.
  - destruct per; fire_eval; reflexivity.
  - destruct per, resolve, tCb as [[]|]; fire_eval; reflexivity.
  - destruct per, vAct, speechDetected, vCb as [[]|]; fire_eval; reflexivity.
  - destruct per; fire_eval; reflexivity.
  - destruct per; fire_eval; reflexivity.
Qed.

(** In state [processing] with the speech engine not listening, a timer
    either returns the pipeline to [idle] or leaves it [processing] with
    the pending return-to-idle timer still pending. *)
Lemma fire_processing x tm w :
  WellFormed w -> In x (timers w) -> In tm (timers w) ->
  timer_action tm = svc_processingDone ->
  stt_isListening (stt w) = false -> currentState (svc w) = processing ->
  currentState (svc (fire x w)) = idle
  \/ (currentState (svc (fire x w)) = processing
      /\ In tm (timers (fire x w))).
Proof.
  intros Hwf Hinx Hin Hact Hl Hs.
  assert (Hne : timer_action x <> svc_processingDone ->
                timer_id tm <> timer_id x).
  { intros Hd Heq.
    pose proof (IdsOK_inj _ _ _ _ (wf_ids w Hwf) Hin Hinx Heq). congruence. }
  destruct (wf_dues w Hwf x Hinx) as [_ Hper].
  clear Hwf. open_world w.
  cbn [timers svc stt currentState stt_isListening] in *. subst sLis cSt.
  destruct x as [id due per act].
  cbn [timer_id timer_period timer_action] in Hne, Hper.
  destruct per as [p|].
  - destruct (Hper p eq_refl) as [_ Hpoll].
    destruct act; try discriminate Hpoll.
    specialize (Hne ltac:(discriminate)).
    right. destruct vAct, speechDetected, vCb as [[]|];
      (split; [fire_eval; reflexivity | fire_eval; keep_in tm]).
  - destruct act.
    + specialize (Hne ltac:(discriminate)). right.
      split; [fire_eval; reflexivity | fire_eval; keep_in tm].
    + specialize (Hne ltac:(discriminate)). right.
      split; [fire_eval; reflexivity | fire_eval; keep_in tm].
    + specialize (Hne ltac:(discriminate)).
      destruct tCb as [[]|].
      * left. destruct resolve; fire_eval; reflexivity.
      * right. destruct resolve;
          (split; [fire_eval; reflexivity | fire_eval; keep_in tm]).
    + specialize (Hne ltac:(discriminate)). right.
      destruct vAct, speechDetected, vCb as [[]|];
        (split; [fire_eval; reflexivity | fire_eval; keep_in tm]).
    + specialize (Hne ltac:(discriminate)). right.
      split; [fire_eval; reflexivity | fire_eval; keep_in tm].
    + left. fire_eval. reflexivity.
Qed.

Lemma advance_idle fuel t w w' :
  stt_isListening (stt w) = false -> currentState (svc w) = idle ->
  advance fuel t w = Some w' -> currentState (svc w') = idle.
Proof.
  revert w. induction fuel as [|fuel IH]; intros w Hl Hs; cbn.
  - destruct (nextTimer (timers w)) as [tm|];
      [destruct (Qle_bool (timer_due tm) t); [discriminate|]|];
      intros [= <-]; exact Hs.
  - destruct (nextTimer (timers w)) as [tm|] eqn:En.
    + destruct (Qle_bool (timer_due tm) t).
      * intros Ha. destruct (fire_silent tm w Hl) as [Hl' _].
        apply (IH _ Hl' (fire_idle tm w Hl Hs) Ha).
      * intros [= <-]. exact Hs.
    + intros [= <-]. exact Hs.
Qed.

Lemma advance_processing fuel t w w' tm :
  WellFormed w -> In tm (timers w) ->
  timer_action tm = svc_processingDone ->
  stt_isListening (stt w) = false -> currentState (svc w) = processing ->
  advance fuel t w = Some w' ->
  (timer_due tm <= t)%Q ->
  currentState (svc w') = idle.
Proof.
  revert w. induction fuel as [|fuel IH]; intros w Hwf Hin Hact Hl Hs; cbn.
  - destruct (nextTimer (timers w)) as [x|] eqn:En.
    + destruct (Qle_bool (timer_due x) t) eqn:El; [discriminate|].
      intros _ Hdue. exfalso.
      pose proof (nextTimer_min _ _ En tm Hin).
      assert ((timer_due x <= t)%Q) as Hc by lra.
      apply Qle_bool_iff in Hc. congruence.
    + apply nextTimer_none in En. rewrite En in Hin. destruct Hin.
  - destruct (nextTimer (timers w)) as [x|] eqn:En.
    + pose proof (nextTimer_in _ _ En) as Hinx.
      destruct (Qle_bool (timer_due x) t) eqn:El.
      * intros Ha Hdue. destruct (fire_silent x w Hl) as [Hl' _].
        destruct (fire_processing x tm w Hwf Hinx Hin Hact Hl Hs)
          as [Hidle | [Hproc Hin']].
        -- apply (advance_idle _ _ _ _ Hl' Hidle Ha).
        -- apply (IH _ (fire_wf x w Hwf En) Hin' Hact Hl' Hproc Ha Hdue).
      * intros _ Hdue. exfalso.
        pose proof (nextTimer_min _ _ En tm Hin).
        assert ((timer_due x <= t)%Q) as Hc by lra.
        apply Qle_bool_iff in Hc. congruence.
    + apply nextTimer_none in En. rewrite En in Hin. destruct Hin.
Qed.

Lemma beforeFinalWorld_reachable : Reachable beforeFinalWorld.
Proof.
  apply (reach_advance (exec (startListening (1 # 2) 0) readyWorld) 20 2100).
  - apply reach_startListening;
      [exact readyWorld_reachable | split; [discriminate | reflexivity]
      | split; [discriminate | reflexivity]].
  - vm_compute. reflexivity.
Qed.

(** X6. The final transcript.  In a reachable world where the final
    timer of the speech engine is the next to fire and the coordinator's
    transcript callback is registered, firing it delivers the phrase as a
    final transcript at the timer's due time, clears the listening flag,
    puts the pipeline in state [processing], hands the parsed command to
    [onCommand] and schedules the return to idle 500 ms later.  It stops
    neither the detector nor any pending timer.  With no further call the
    state is [idle] once those 500 ms have passed. *)
Theorem final_transcript_then_idle (tm : Timer) (mock : MockTranscript)
        (rnd : Q) (w : World) :
  Reachable w ->
  nextTimer (timers w) = Some tm ->
  timer_action tm = stt_final mock rnd ->
  stt_onTranscript (stt w) = Some VoiceService_onTranscript ->
  let w' := fire tm w in
  stt_isListening (stt w) = true
  /\ currentState (svc w') = processing
  /\ stt_isListening (stt w') = false
  /\ sttEvents (log w')
     = (sttEvents (log w)
        ++ [(timer_due tm, (mock_text mock, finalConfidence rnd, true))])%list
  /\ In (ev_command {| cmd_keyword := snd (matchCommand (mock_text mock));
                       cmd_intent := fst (matchCommand (mock_text mock));
                       cmd_rawTranscript := mock_text mock;
                       cmd_confidence := finalConfidence rnd |})
        (events w')
  /\ In {| timer_id := nextTimerId w;
           timer_due := (timer_due tm + 500)%Q;
           timer_period := None;
           timer_action := svc_processingDone |} (timers w')
  /\ vad_isActive (vad w') = vad_isActive (vad w)
  /\ (forall tm', In tm' (timers w) -> timer_id tm' <> timer_id tm ->
                  In tm' (timers w'))
  /\ forall fuel t w'',
       advance fuel t w' = Some w'' -> (timer_due tm + 500 <= t)%Q ->
       currentState (svc w'') = idle.
Proof.
  intros Hr Hnext Hact Hcb. cbv zeta.
  pose proof (Reachable_WellFormed w Hr) as Hwf.
  pose proof (nextTimer_in _ _ Hnext) as Hin.
  pose proof (fire_wf tm w Hwf Hnext) as Hwf'.
  assert (Hk : isFinalTimer tm = true) by (unfold isFinalTimer; now rewrite Hact).
  destruct (wf_final w Hwf tm Hin Hk) as [Hl Hcur].
  destruct (wf_dues w Hwf tm Hin) as [Hck Hper].
  assert (Hnone : timer_period tm = None).
  { destruct (timer_period tm) as [p|] eqn:Ep; [|reflexivity].
    destruct (Hper p eq_refl) as [_ Hpoll].
    unfold isPollTimer in Hpoll. rewrite Hact in Hpoll. discriminate. }
  assert (Hparts :
    currentState (svc (fire tm w)) = processing
    /\ stt_isListening (stt (fire tm w)) = false
    /\ sttEvents (log (fire tm w))
       = (sttEvents (log w)
          ++ [(timer_due tm, (mock_text mock, finalConfidence rnd, true))])%list
    /\ In (ev_command {| cmd_keyword := snd (matchCommand (mock_text mock));
                         cmd_intent := fst (matchCommand (mock_text mock));
                         cmd_rawTranscript := mock_text mock;
                         cmd_confidence := finalConfidence rnd |})
          (events (fire tm w))
    /\ In {| timer_id := nextTimerId w;
             timer_due := (timer_due tm + 500)%Q;
             timer_period := None;
             timer_action := svc_processingDone |} (timers (fire tm w))
    /\ vad_isActive (vad (fire tm w)) = vad_isActive (vad w)
    /\ (forall tm', In tm' (timers w) -> timer_id tm' <> timer_id tm ->
                    In tm' (timers (fire tm w)))).
  { clear Hwf Hwf' Hr Hnext Hcur Hper Hk Hin. open_world w.
    cbn [stt stt_onTranscript stt_isListening clock timers log vad
         vad_isActive nextTimerId] in *.
    subst sCb sLis.
    destruct tm as [id due per act].
    cbn [timer_id timer_due timer_period timer_action] in *. subst per act.
    unfold fire, rearm.
    cbn [timer_id timer_due timer_period timer_action clock set_clock].
    rewrite (laterOf_eq _ _ Hck).
    destruct (matchCommand (mock_text mock)) as [i k] eqn:Hmc.
    cbn [fst snd].
    destruct i;
      (split; [run_js; rewrite ?Hmc; reflexivity|];
       split; [run_js; rewrite ?Hmc; reflexivity|];
       split; [run_js; rewrite ?Hmc; run_js;
               rewrite ?sttEvents_app; cbn [sttEvents app];
               rewrite ?app_nil_r; reflexivity|];
       split; [unfold events; run_js; rewrite ?Hmc; run_js;
               rewrite !map_app, !in_app_iff; cbn; auto 10|];
       split; [run_js; rewrite ?Hmc; run_js;
               apply in_or_app; right; left; reflexivity|];
       split; [run_js; rewrite ?Hmc; reflexivity|];
       intros tm' Hin' Hne'; run_js; rewrite ?Hmc; run_js;
       apply in_or_app; left; apply in_cancel; split; assumption). }
  destruct Hparts as (Hs & Hl' & Hev & Hcmd & Hpd & Hvad & Hkeep).
  repeat (split; [assumption|]).
  intros fuel t w'' Ha Ht.
  eapply (advance_processing fuel t (fire tm w) w'' _ Hwf' Hpd eq_refl Hl' Hs Ha).
  exact Ht.
Qed.

Lemma final_transcript_then_idle_witness :
  let mock := {| mock_text := "generate security report";
                 mock_intent := "report"; mock_delay := 2200 |} in
  let tm := {| timer_id := 5; timer_due := 2200; timer_period := None;
               timer_action := stt_final mock 0 |} in
  currentState (svc (fire tm beforeFinalWorld)) = processing
  /\ match advance 10 2700 (fire tm beforeFinalWorld) with
     | Some w'' => currentState (svc w'') = idle
     | None => False
     end.
Proof.
  cbv zeta.
  set (mock := {| mock_text := "generate security report";
                  mock_intent := "report"; mock_delay := 2200 |}).
  set (tm := {| timer_id := 5; timer_due := 2200; timer_period := None;
                timer_action := stt_final mock 0 |}).
  assert (Hnext : nextTimer (timers beforeFinalWorld) = Some tm)
    by (vm_compute; reflexivity).
  assert (Hcb : stt_onTranscript (stt beforeFinalWorld)
                = Some VoiceService_onTranscript)
    by (vm_compute; reflexivity).
  pose proof (final_transcript_then_idle tm mock 0 beforeFinalWorld
                beforeFinalWorld_reachable Hnext eq_refl Hcb)
    as (_ & Hs & _ & _ & _ & _ & _ & _ & Hidle).
  split; [exact Hs|].
  destruct (advance 10 2700 (fire tm beforeFinalWorld)) as [w''|] eqn:E.
  - apply (Hidle 10 2700%Q w'' E). vm_compute. discriminate.
  - vm_compute in E. discriminate E.
Defined.

(* ------------------------------------------------------------------ *)
(** ** Stopping, shutting down and the safety timer *)

Lemma cancel_absent id l :
  (forall tm, In tm l -> timer_id tm <> id) -> cancel id l = l.
Proof.
  intros H. unfold cancel. induction l as [|x l IH]; [reflexivity|].
  cbn [filter]. destruct (Nat.eqb_spec (timer_id x) id) as [E|E].
  - exfalso. apply (H x); [left; reflexivity | exact E].
  - cbn [negb]. f_equal. apply IH. intros tm Hin. apply H. right. exact Hin.
Qed.

Ltac cancel_again :=
  repeat match goal with
  | |- cancel ?a ?X = _ =>
      rewrite (cancel_absent a X)
        by (let tm := fresh "tm" in let Hin := fresh "Hin" in
            intros tm Hin; in_cases; assumption)
  end.

(** X7. [stopListening()] outside a listening session: when the state
    is not [listening] the call returns without delivering any event and
    leaves the state and the synthesis engine as they were.  In every
    world a second [stopListening()] right after the first changes
    nothing. *)
Theorem stopListening_when_not_listening (w : World) :
  (currentState (svc w) <> listening ->
   result stopListening w = Ok tt
   /\ log (exec stopListening w) = log w
   /\ currentState (svc (exec stopListening w)) = currentState (svc w)
   /\ tts (exec stopListening w) = tts w)
  /\ exec stopListening (exec stopListening w) = exec stopListening w.
Proof.
  split.
  - intros Hs. open_world w. cbn in Hs.
    destruct cRec, sCur, sInt, vInt, cSt; try contradiction;
      repeat split; reflexivity.
  - open_world w.
    destruct cRec, sCur, sInt, vInt, cSt; unfold exec; run_js;
      try reflexivity; f_equal; cancel_again; reflexivity.
Qed.

Lemma stopListening_when_not_listening_witness :
  log (exec stopListening readyWorld) = log readyWorld
  /\ currentState (svc (exec stopListening readyWorld)) = idle.
Proof.
  destruct (stopListening_when_not_listening readyWorld) as [Hidle _].
  destruct Hidle as (_ & Hlog & Hst & _); [discriminate|].
  split; [exact Hlog | exact Hst].
Defined.


(** X9. The safety timer that [startListening()] arms.  When its
    callback runs in state [listening] it logs one warning and stops the
    session: the state is [idle], the speech engine is not listening and
    the detector is not active, and no transcript is delivered afterwards
    however long time passes.  In any other state the callback does
    nothing at all; it does not check which session armed it. *)
Theorem max_recording_timer (w : World) :
  (currentState (svc w) = listening ->
   let w' := exec maxRecordingCallback w in
   result maxRecordingCallback w = Ok tt
   /\ w' = exec stopListening
             (exec (addThought "Max recording duration reached" th_warning) w)
   /\ currentState (svc w') = idle
   /\ stt_isListening (stt w') = false
   /\ vad_isActive (vad w') = false
   /\ In (ev_thought "Max recording duration reached" th_warning) (events w')
   /\ forall fuel t w'',
        advance fuel t w' = Some w'' ->
        sttEvents (log w'') = sttEvents (log w'))
  /\ (currentState (svc w) <> listening ->
      maxRecordingCallback w = (Ok tt, w)).
Proof.
  split.
  - intros Hs. cbv zeta.
    assert (Hparts :
      result maxRecordingCallback w = Ok tt
      /\ exec maxRecordingCallback w
         = exec stopListening
             (exec (addThought "Max recording duration reached" th_warning) w)
      /\ currentState (svc (exec maxRecordingCallback w)) = idle
      /\ stt_isListening (stt (exec maxRecordingCallback w)) = false
      /\ vad_isActive (vad (exec maxRecordingCallback w)) = false
      /\ In (ev_thought "Max recording duration reached" th_warning)
            (events (exec maxRecordingCallback w))).
    { open_world w. cbn in Hs. subst cSt.
      destruct cRec, sCur, sInt, vInt;
        (split; [|split; [|split; [|split; [|split]]]]);
        unfold result, exec, events; run_js; try reflexivity;
        rewrite !map_app, !in_app_iff; cbn [map snd In]; auto 10. }
    destruct Hparts as (Hres & Heq & Hst & Hl & Hv & Hin).
    repeat (split; [assumption|]).
    intros fuel t w'' Hadv. apply (advance_silent fuel t _ w'' Hl Hadv).
  - intros Hs. open_world w. cbn in Hs.
    destruct cSt; try contradiction; run_js; reflexivity.
Qed.

Lemma max_recording_timer_witness :
  currentState (svc (exec maxRecordingCallback listeningWorld)) = idle
  /\ maxRecordingCallback readyWorld = (Ok tt, readyWorld).
Proof.
  destruct (max_recording_timer listeningWorld) as [Hstop _].
  destruct (max_recording_timer readyWorld) as [_ Hskip].
  assert (Hl : currentState (svc listeningWorld) = listening)
    by (vm_compute; reflexivity).
  assert (Hr : currentState (svc readyWorld) <> listening)
    by (vm_compute; discriminate).
  destruct (Hstop Hl) as (_ & _ & Hst & _).
  split; [exact Hst | exact (Hskip Hr)].
Defined.

(* ------------------------------------------------------------------ *)
(** ** Starting a session *)

Lemma unitDraw_picks r : unitDraw r -> exists mock, pickMock r = Some mock.
Proof.
  intros Hr. destruct (pickMock_unitDraw r Hr) as (mock & Hp & _).
  exists mock. exact Hp.
Qed.





(* ------------------------------------------------------------------ *)
(** ** The detector's interval *)

Lemma countIf_cancel_absent (p : Timer -> bool) id l :
  (forall tm, In tm l -> timer_id tm <> id) ->
  countIf p (cancel id l) = countIf p l.
Proof. intros H. rewrite (cancel_absent id l H). reflexivity. Qed.

(** X11. [VoiceActivityDetector.start()] does not clear the interval of
    an earlier [start()]: called twice in a reachable world it leaves two
    polling intervals more than before, and [stop()] then cancels only the
    second, whose handle [simulationInterval] holds.  The first interval
    stays in the timer queue with no handle left to clear it. *)
Theorem vad_start_twice_leaks_interval (w : World) :
  Reachable w -> vad_initialized (vad w) = true ->
  let w2 := exec vad_start (exec vad_start w) in
  let w3 := exec vad_stop w2 in
  let first := {| timer_id := nextTimerId w; timer_due := (clock w + 500)%Q;
                  timer_period := Some 500%Q;
                  timer_action := vad_poll false |} in
  result vad_start w = Ok tt
  /\ result vad_start (exec vad_start w) = Ok tt
  /\ countIf isPollTimer (timers w2) = countIf isPollTimer (timers w) + 2
  /\ vad_simulationInterval (vad w2) = Some (S (nextTimerId w))
  /\ vad_isActive (vad w3) = false
  /\ In first (timers w3)
  /\ countIf isPollTimer (timers w3) = countIf isPollTimer (timers w) + 1.
Proof.
  intros Hr Hi. cbv zeta.
  pose proof (wf_ids w (Reachable_WellFormed w Hr)) as [_ Hlt].
  clear Hr. open_world w. cbn in Hi, Hlt. subst vInit.
  assert (Habs : forall tm, In tm tms -> timer_id tm <> S nid).
  { intros tm Hin. specialize (Hlt tm Hin). lia. }
  (split; [|split; [|split; [|split; [|split; [|split]]]]]);
    unfold result, exec; run_js; try reflexivity.
  - rewrite !countIf_app. cbn. lia.
  - apply in_cancel. split; [|cbn; lia].
    apply in_or_app. left. apply in_or_app. right. left. reflexivity.
  - unfold cancel. rewrite !filter_app. fold (cancel (S nid) tms).
    rewrite (cancel_absent _ _ Habs). cbn [filter timer_id].
    rewrite Nat.eqb_refl.
    replace (nid =? S nid) with false by (symmetry; apply Nat.eqb_neq; lia).
    cbn [negb]. rewrite !countIf_app. cbn. lia.
Qed.

Lemma vad_start_twice_leaks_interval_witness :
  countIf isPollTimer
          (timers (exec vad_stop (exec vad_start (exec vad_start readyWorld))))
  = countIf isPollTimer (timers readyWorld) + 1.
Proof.
  assert (Hi : vad_initialized (vad readyWorld) = true)
    by (vm_compute; reflexivity).
  destruct (vad_start_twice_leaks_interval readyWorld readyWorld_reachable Hi)
    as (_ & _ & _ & _ & _ & _ & Hcount).
  exact Hcount.
Defined.

(* ------------------------------------------------------------------ *)
(** ** A safety timer that outlives its session *)

Lemma secondSessionWorld_reachable : Reachable secondSessionWorld.
Proof.
  unfold secondSessionWorld.
  destruct (advance 100 29000 (exec (startListening (5 # 6) 0) readyWorld))
    as [w|] eqn:E; [|exact readyWorld_reachable].
  apply reach_startListening;
    [| split; [discriminate | reflexivity]
     | split; [discriminate | reflexivity]].
  apply (reach_advance (exec (startListening (5 # 6) 0) readyWorld) 100 29000);
    [|exact E].
  apply reach_startListening;
    [exact readyWorld_reachable | split; [discriminate | reflexivity]
    | split; [discriminate | reflexivity]].
Qed.

(** X12. The safety timer of a session that ended with its final
    transcript is not cancelled, and its callback does not check which
    session armed it.  There is a reachable world, one second into a
    second listening session, in which the first session's safety timer is
    still pending under a handle the coordinator no longer holds; one
    second later it fires, logs "Max recording duration reached" and stops
    the second session, which never delivers its final transcript. *)
Theorem stale_safety_timer_stops_next_session :
  exists (w : World) (tm : Timer),
    Reachable w
    /\ currentState (svc w) = listening
    /\ clock w = 29000%Q
    /\ In tm (timers w)
    /\ timer_action tm = svc_maxRecording
    /\ timer_due tm = 30000%Q
    /\ recordingTimeout (svc w) <> Some (timer_id tm)
    /\ countIf isPollTimer (timers w) = 2
    /\ exists w',
         advance 100 40000 w = Some w'
         /\ currentState (svc w') = idle
         /\ In (30000%Q, ev_thought "Max recording duration reached" th_warning)
               (log w')
         /\ countFinalEvents w' = countFinalEvents w.
Proof.
  exists secondSessionWorld.
  exists {| timer_id := 5; timer_due := 30000; timer_period := None;
            timer_action := svc_maxRecording |}.
  split; [exact secondSessionWorld_reachable|].
  split; [vm_compute; reflexivity|].
  split; [vm_compute; reflexivity|].
  split; [vm_compute; tauto|].
  split; [reflexivity|].
  split; [reflexivity|].
  split; [vm_compute; discriminate|].
  split; [vm_compute; reflexivity|].
  destruct (advance 100 40000 secondSessionWorld) as [w'|] eqn:E;
    [|vm_compute in E; discriminate E].
  exists w'. split; [reflexivity|].
  vm_compute in E. injection E as <-.
  split; [reflexivity|]. split; [|vm_compute; reflexivity].
  vm_compute. tauto.
Qed.


(* ------------------------------------------------------------------ *)
(** ** The pipeline settles *)

Arguments isRecordingTimer : simpl never.
Arguments isProcessingTimer : simpl never.
Arguments isInterimTimer : simpl never.
Arguments HandleFor : simpl never.
Arguments PendingBy : simpl never.

(** Evaluation as [run_js], leaving also the timer kinds folded. *)
Ltac run_se :=
  lazy -[stt_startListening cancel interimTimers
         Qplus Qmult Qmax Qmin Qle_bool Qle Qlt laterOf
         cappedDuration wordCount pickMock matchCommand toFixed0
         toUpperCase toLowerCase trim intent_name
         String.append split inject_Z Z.of_nat Nat.add Nat.eqb Nat.lt
         List.app List.length
         List.map List.filter In OwnedBy IdsOK DuesOK HandleFor PendingBy
         isTtsTimer isFinalTimer isPollTimer isRecordingTimer
         isProcessingTimer isInterimTimer
         mock_delay mock_text
         timer_id timer_due timer_period timer_action];
  repeat (progress cbn [timer_id timer_due timer_period timer_action];
          lazy -[stt_startListening cancel interimTimers
         Qplus Qmult Qmax Qmin Qle_bool Qle Qlt laterOf
         cappedDuration wordCount pickMock matchCommand toFixed0
         toUpperCase toLowerCase trim intent_name
         String.append split inject_Z Z.of_nat Nat.add Nat.eqb Nat.lt
         List.app List.length
         List.map List.filter In OwnedBy IdsOK DuesOK HandleFor PendingBy
         isTtsTimer isFinalTimer isPollTimer isRecordingTimer
         isProcessingTimer isInterimTimer
         mock_delay mock_text
         timer_id timer_due timer_period timer_action]).

Ltac kinds_unfold :=
  unfold isTtsTimer, isFinalTimer, isPollTimer, isRecordingTimer,
    isProcessingTimer, isInterimTimer in *;
  cbn [timer_action] in *.

(** Two timers of different kinds have different handles. *)
Lemma HandleFor_apart kind n l tm :
  HandleFor kind (Some n) l -> In tm l -> kind tm = false ->
  timer_id tm <> n.
Proof.
  intros H Hin Hk E. rewrite (H tm Hin (f_equal Some (eq_sym E))) in Hk.
  discriminate.
Qed.

(** For a pending timer [tm0] of a known kind: it is not the timer any
    handle of another kind names. *)
Ltac apart tm0 Hin0 :=
  repeat match goal with
  | H : HandleFor ?k (Some ?n) ?l |- _ =>
      lazymatch goal with
      | _ : timer_id tm0 <> n |- _ => fail
      | _ =>
          assert (timer_id tm0 <> n)
            by (apply (HandleFor_apart k n l tm0 H Hin0);
                kinds_unfold; destruct (timer_action tm0);
                first [reflexivity | discriminate])
      end
  end.

(** Nor is it the timer that fires, when that one is of another kind. *)
Ltac apart_fired tm0 Hin0 Hk0 :=
  repeat match goal with
  | Hids : IdsOK _ ?l,
    Hf : In {| timer_id := ?i; timer_due := _; timer_period := _;
               timer_action := _ |} ?l |- _ =>
      lazymatch goal with
      | _ : timer_id tm0 <> i |- _ => fail
      | _ =>
          assert (timer_id tm0 <> i)
            by (let E := fresh "E" in let Heq := fresh "Heq" in
                intros E;
                pose proof (IdsOK_inj _ _ _ _ Hids Hin0 Hf E) as Heq;
                rewrite Heq in Hk0; kinds_unfold; discriminate Hk0)
      end
  end.

Ltac keep_old tm0 :=
  repeat first
    [ assumption
    | apply in_or_app; left
    | apply in_cancel; split; [|first [assumption | congruence]]
    | apply in_map_iff; exists tm0; split;
      [ cbn;
        match goal with
        | |- context [Nat.eqb (timer_id tm0) ?j] =>
            destruct (Nat.eqb_spec (timer_id tm0) j);
            [first [contradiction | congruence] | reflexivity]
        end | ] ].

(** Goals [flag = true -> PendingBy kind D l]: the flag is off, or the
    timer was just created, or the one known to be pending still is. *)
Ltac pending :=
  let Hf := fresh "Hflag" in
  intros Hf; try discriminate Hf;
  try match goal with
      | H : _ -> PendingBy ?k _ _ |- PendingBy ?k _ _ => specialize (H Hf)
      end;
  first
    [ match goal with
      | H : PendingBy ?k _ ?l |- PendingBy ?k _ _ =>
          let tm0 := fresh "tm0" in
          let Hin0 := fresh "Hin0" in
          let Hk0 := fresh "Hk0" in
          let Hd0 := fresh "Hd0" in
          destruct H as (tm0 & Hin0 & Hk0 & Hd0);
          apart tm0 Hin0; apart_fired tm0 Hin0 Hk0;
          exists tm0; split; [solve [keep_old tm0] | split; [assumption | lra]]
      end
    | solve [ eexists; split;
              [ apply in_or_app; right; left; reflexivity
              | split; [reflexivity | cbn [timer_due]; lra] ] ]
    | solve [ eexists; split;
              [ apply in_or_app; left; apply in_or_app; right; left;
                reflexivity
              | split; [reflexivity | cbn [timer_due]; lra] ] ] ].

(** Premises that have become decided. *)
Ltac decide_premises :=
  repeat match goal with
  | H : ?a = ?a -> _ |- _ => specialize (H eq_refl)
  | H : true = false -> _ |- _ => clear H
  | H : false = true -> _ |- _ => clear H
  | H : idle = speaking -> _ |- _ => clear H
  | H : idle = processing -> _ |- _ => clear H
  | H : listening = speaking -> _ |- _ => clear H
  | H : listening = processing -> _ |- _ => clear H
  | H : processing = speaking -> _ |- _ => clear H
  | H : speaking = processing -> _ |- _ => clear H
  | H : error = speaking -> _ |- _ => clear H
  | H : error = processing -> _ |- _ => clear H
  end.

(** Goals [forall i, handle = Some i -> i < next]. *)
Ltac handle_bound :=
  let i := fresh "i" in let Hh := fresh "Hh" in
  intros i Hh;
  first
    [ discriminate Hh
    | injection Hh as <-; lia
    | match goal with
      | Hold : forall j, _ = Some j -> j < ?n |- _ =>
          assert (i < n) by (apply Hold; exact Hh); lia
      end ].

(** Goals [HandleFor kind handle l]. *)
Ltac kinds :=
  let tm := fresh "tm" in let Hin := fresh "Hin" in let Hh := fresh "Hh" in
  intros tm Hin Hh; in_cases; unfold interimTimer in *;
  cbn [timer_id] in *; eqb_cases;
  cbn [timer_id] in *;
  try discriminate Hh;
  first
    [ (* an old timer under the handle it had *)
      match goal with
      | H : HandleFor ?k _ ?l, Hi : In ?x ?l |- ?k _ = true =>
          solve [ kinds_unfold; exact (H x Hi Hh) ]
      end
    | (* a timer just created under its own handle *)
      solve [ kinds_unfold; reflexivity ]
    | (* or under the handle of another one just created *)
      solve [ exfalso; injection Hh as Hh; lia ]
    | (* the timer that fires, named by a handle of another kind *)
      match goal with
      | Hids : IdsOK _ ?l, Hi : In ?x ?l,
        Hf : In {| timer_id := ?i; timer_due := _; timer_period := _;
                   timer_action := _ |} ?l,
        E : timer_id ?x = ?i |- _ =>
          let Heq := fresh "Heq" in
          pose proof (IdsOK_inj _ _ _ _ Hids Hi Hf E) as Heq; subst x;
          match goal with
          | H : HandleFor ?k _ l |- ?k _ = true =>
              let Hc := fresh "Hc" in
              pose proof (H _ Hf Hh) as Hc; kinds_unfold;
              solve [discriminate Hc | reflexivity | exact Hc]
          end
      end
    | (* an old timer cannot have a handle handed out later *)
      match goal with
      | Hids : IdsOK ?n ?l, Hi : In ?x ?l |- _ =>
          pose proof (proj2 Hids x Hi); injection Hh as Hh; lia
      end
    | (* a new timer cannot have a handle handed out before *)
      match goal with
      | Hold : forall j, _ -> j < ?n |- _ =>
          match type of Hh with
          | _ = Some ?j =>
              assert (j < n) by (apply Hold; cbn; auto 6); lia
          end
      end
    | match goal with
      | Hold : forall j, _ = Some j -> j < ?n |- _ =>
          match type of Hh with
          | _ = Some ?j => assert (j < n) by (apply Hold; exact Hh); lia
          end
      end ].

Ltac se_intro w :=
  intros [Hready Hlisten Htts Hfinal Hids Hdues Hcfg Hhandles Hpriv]
         [Hst Heng Hdef Hspk Hpt Hps Hpp Htcur Hrec Hfin Hint Hpoll Hsyn
          Hevery];
  open_world w;
  cbn [stt tts vad svc clock nextTimerId timers partialText log
       stt_initialized stt_isListening stt_onTranscript stt_currentTimeout
       stt_interimTimeout tts_initialized tts_isSpeaking tts_onStatus
       tts_currentTimeout vad_initialized vad_isActive vad_onVAD
       vad_simulationInterval sttConfig ttsConfig isInitialized
       currentState recordingTimeout] in *.

(** Goals stating that every interval has period 500. *)
Ltac periods :=
  let tm := fresh "tm" in let p := fresh "p" in
  let Hin := fresh "Hin" in let Hp := fresh "Hp" in
  intros tm p Hin Hp; in_cases; unfold interimTimer in *;
  cbn [timer_id timer_period] in *; eqb_cases;
  cbn [timer_id timer_period] in *;
  try discriminate Hp;
  first
    [ solve [ injection Hp as <-; reflexivity ]
    | match goal with
      | H : forall x q, In x ?l -> timer_period x = Some q -> q = _,
        Hi : In ?y ?l |- _ => exact (H y p Hi Hp)
      end ].

(** The fourteen parts of [Settling], each evaluated by [run]. *)
Ltac se_with run :=
  decide_premises;
  constructor; run;
  [ try discriminate; try assumption
  | try assumption; try (repeat split; congruence)
  | try assumption; try (split; reflexivity)
  | let H := fresh in intros H; try discriminate H; auto
  | pending | pending | pending
  | handle_bound
  | kinds | kinds | kinds | kinds | kinds
  | periods ].



Lemma stopSpeaking_settling Dt Df Dp w :
  WellFormed w -> Settling Dt Df Dp w ->
  Settling Dt Df Dp (exec stopSpeaking w).
Proof.
  se_intro w. destruct tCur, tCb as [[]|], cSt; se_with ltac:(run_se).
Qed.

Lemma stopListening_settling Dt Df Dp w :
  WellFormed w -> Settling Dt Df Dp w ->
  Settling Dt Df Dp (exec stopListening w).
Proof.
  se_intro w. destruct cRec, sCur, sInt, vInt, cSt; se_with ltac:(run_se).
Qed.

Lemma tts_stop_settling Dt Df Dp w :
  WellFormed w -> Settling Dt Df Dp w ->
  Settling Dt Df Dp (exec tts_stop w).
Proof.
  se_intro w.
  destruct tCur, tCb as [[]|], cSt; decide_premises;
    try (destruct Hspk as [_ ->]; decide_premises;
         destruct Hready as (_ & _ & _ & _ & [=] & _));
    se_with ltac:(run_se).
Qed.

Lemma destroy_settling Dt Df Dp w :
  WellFormed w -> Settling Dt Df Dp w ->
  Settling Dt Df Dp (exec destroy w).
Proof.
  se_intro w.
  destruct sCur, sInt, tCur, tCb as [[]|], vInt; se_with ltac:(run_se).
Qed.

Lemma initialize_settling Dt Df Dp w :
  WellFormed w -> Settling Dt Df Dp w ->
  Settling Dt Df Dp (exec (initialize MockSDK) w).
Proof. se_intro w. se_with ltac:(run_se). Qed.
Lemma speakAnalysis_settling Dt Df Dp text w :
  WellFormed w -> Settling Dt Df Dp w -> (clock w + 5000 <= Dt)%Q ->
  Settling Dt Df Dp (exec (speakAnalysis text) w).
Proof.
  pose proof (cappedDuration_bounds (wordCount text)) as [Hlo Hhi].
  intros Hwf Hse HD. rewrite speakAnalysis_unfold.
  destruct (negb (isInitialized (svc w))) eqn:Ei.
  { revert Hwf Hse. se_intro w. se_with ltac:(run_se). }
  apply negb_false_iff in Ei.
  assert (H1 : WellFormed (if stt_isListening (stt w)
                           then exec stopListening w else w)
               /\ Settling Dt Df Dp (if stt_isListening (stt w)
                                     then exec stopListening w else w)
               /\ (clock (if stt_isListening (stt w)
                          then exec stopListening w else w) + 5000 <= Dt)%Q
               /\ isInitialized (svc (if stt_isListening (stt w)
                                      then exec stopListening w else w)) = true
               /\ stt_isListening (stt (if stt_isListening (stt w)
                                        then exec stopListening w else w))
                  = false).
  { destruct (stt_isListening (stt w)) eqn:El.
    - split; [apply stopListening_wf; exact Hwf|].
      split; [apply stopListening_settling; assumption|].
      clear Hwf Hse. open_world w. cbn in Ei, HD. subst cInit.
      destruct cRec, sCur, sInt, vInt, cSt; repeat split;
        unfold exec; run_se; first [assumption | reflexivity].
    - split; [exact Hwf|]. split; [exact Hse|]. split; [exact HD|].
      split; [exact Ei | exact El]. }
  generalize dependent (if stt_isListening (stt w)
                        then exec stopListening w else w).
  clear -Hlo Hhi. intros w (Hwf & Hse & HD & Hi & Hl). revert Hwf Hse.
  se_intro w. cbn in HD, Hi, Hl. subst cInit sLis.
  destruct Hready as (-> & -> & -> & -> & -> & ->); [reflexivity|].
  destruct tSpk, tCur, cSt; se_with ltac:(run_se).
Qed.
Lemma startListening_settling Dt Df Dp r1 r2 w :
  WellFormed w -> Settling Dt Df Dp w ->
  unitDraw r1 -> (clock w + 3000 <= Df)%Q ->
  Settling Dt Df Dp (exec (startListening r1 r2) w).
Proof.
  intros Hwf Hse Hr HD. rewrite startListening_unfold.
  destruct (negb (isInitialized (svc w))) eqn:Ei.
  { revert Hwf Hse. se_intro w. se_with ltac:(run_se). }
  destruct (state_eqb (currentState (svc w)) listening) eqn:Es.
  { revert Hwf Hse. se_intro w. se_with ltac:(run_se). }
  apply negb_false_iff in Ei.
  set (w1 := if tts_isSpeaking (tts w) then exec tts_stop w else w).
  assert (H1 : WellFormed w1 /\ Settling Dt Df Dp w1
               /\ (clock w1 + 3000 <= Df)%Q
               /\ isInitialized (svc w1) = true
               /\ tts_isSpeaking (tts w1) = false).
  { unfold w1. destruct (tts_isSpeaking (tts w)) eqn:Et.
    - split; [apply tts_stop_wf; exact Hwf|].
      split; [apply tts_stop_settling; assumption|].
      clear Hwf Hse. open_world w. cbn in Ei, HD. subst cInit.
      destruct tCur, tCb as [[]|], cSt; repeat split;
        unfold exec; run_se; first [assumption | reflexivity].
    - split; [exact Hwf|]. split; [exact Hse|]. split; [exact HD|].
      split; [exact Ei | exact Et]. }
  destruct (pickMock_unitDraw r1 Hr) as (mock & Hp & _ & Hd1 & Hd2).
  destruct (split_nonempty space (mock_text mock)) as [m Hm].
  generalize dependent w1. clear -Hp Hd1 Hd2 Hm.
  intros w (Hwf & Hse & HD & Hi & Ht). revert Hwf Hse.
  se_intro w. cbn in HD, Hi, Ht. subst cInit tSpk.
  destruct Hready as (-> & -> & -> & -> & -> & ->); [reflexivity|].
  destruct Hdef as [-> ->].
  destruct sLis, cSt;
    se_with ltac:(
      run_se;
      rewrite ?(stt_startListening_busy r1 r2) by reflexivity;
      rewrite ?(stt_startListening_closed r1 r2 _ mock m)
        by (reflexivity || assumption);
      run_se).
Qed.
Lemma fire_settling Dt Df Dp tm w :
  WellFormed w -> Settling Dt Df Dp w ->
  nextTimer (timers w) = Some tm -> (Df + 500 <= Dp)%Q ->
  Settling Dt Df Dp (fire tm w).
Proof.
  intros Hwf Hse Hnext HD.
  pose proof (nextTimer_in _ _ Hnext) as Hin. clear Hnext.
  assert (Hone : forall x, In x (timers w) -> isFinalTimer x = true ->
                           isFinalTimer tm = true -> x = tm).
  { intros x Hx Hkx Hk.
    apply (IdsOK_inj _ _ _ _ (wf_ids w Hwf) Hx Hin).
    destruct (wf_final w Hwf x Hx Hkx) as [_ H1].
    destruct (wf_final w Hwf tm Hin Hk) as [_ H2]. congruence. }
  revert Hwf Hse Hin Hone. se_intro w. intros Hin Hone.
  destruct tm as [id due per act].
  unfold fire.
  cbn [timers clock timer_id timer_due timer_period timer_action set_clock].
  destruct (Hdues _ Hin) as [Hck Hper].
  cbn [timer_due timer_period] in Hck, Hper.
  rewrite (laterOf_eq _ _ Hck).
  pose proof (Htts _ Hin) as Ht. pose proof (Hfinal _ Hin) as Hf.
  cbn [timer_id] in Ht, Hf.
  destruct per as [p|].
  - destruct (Hper p eq_refl) as [Hp Hispoll]. clear Hper.
    destruct act; try discriminate Hispoll. clear Ht Hf Hispoll.
    destruct vAct, speechDetected, vCb as [[]|]; se_with ltac:(run_se).
  - clear Hper. unfold rearm. cbn [timer_period timer_id].
    destruct act.
    + clear Ht Hf. destruct sLis, sCb as [[]|]; se_with ltac:(run_se).
    + destruct (Hf eq_refl) as [-> ->]. clear Ht Hf.
      assert (Hdue : (due <= Df)%Q).
      { destruct (Hps eq_refl) as (tm0 & Hin0 & Hk0 & Hd0).
        rewrite (Hone tm0 Hin0 Hk0 eq_refl) in Hd0. exact Hd0. }
      destruct (matchCommand (mock_text mock)) as [i k] eqn:Hmc.
      destruct sCb as [[]|], i;
        se_with ltac:(run_se; rewrite ?Hmc; run_se).
    + destruct (Ht eq_refl) as [-> ->]. clear Ht Hf.
      destruct resolve, tCb as [[]|], cSt; decide_premises;
        try (destruct Hspk as [_ ->]; decide_premises;
             destruct Hready as (_ & _ & _ & _ & [=] & _));
        se_with ltac:(run_se).
    + clear Ht Hf.
      destruct vAct, speechDetected, vCb as [[]|]; se_with ltac:(run_se).
    + clear Ht Hf.
      destruct cSt, cRec, sCur, sInt, vInt; se_with ltac:(run_se).
    + clear Ht Hf. destruct cSt; se_with ltac:(run_se).
Qed.

Lemma set_clock_settling Dt Df Dp c w :
  Settling Dt Df Dp w -> Settling Dt Df Dp (set_clock c w).
Proof. intros [? ? ? ? ? ? ? ? ? ? ? ? ? ?]. constructor; assumption. Qed.

Lemma advance_settling Dt Df Dp fuel t w w' :
  WellFormed w -> Settling Dt Df Dp w -> (Df + 500 <= Dp)%Q ->
  advance fuel t w = Some w' -> Settling Dt Df Dp w'.
Proof.
  intros Hwf Hse HD. revert w Hwf Hse.
  induction fuel as [|fuel IH]; intros w Hwf Hse; cbn.
  - destruct (nextTimer (timers w)) as [tm|];
      [destruct (Qle_bool (timer_due tm) t); [discriminate|]|];
      intros [= <-]; apply set_clock_settling; exact Hse.
  - destruct (nextTimer (timers w)) as [tm|] eqn:En.
    + destruct (Qle_bool (timer_due tm) t).
      * apply IH; [apply fire_wf | apply fire_settling]; assumption.
      * intros [= <-]. apply set_clock_settling; exact Hse.
    + intros [= <-]. apply set_clock_settling; exact Hse.
Qed.

Lemma PendingBy_later kind D D' l :
  (D <= D')%Q -> PendingBy kind D l -> PendingBy kind D' l.
Proof.
  intros HD (tm & Hin & Hk & Hd). exists tm. repeat split; try assumption. lra.
Qed.

Lemma Settling_later Dt Df Dp Dt' Df' Dp' w :
  (Dt <= Dt')%Q -> (Df <= Df')%Q -> (Dp <= Dp')%Q ->
  Settling Dt Df Dp w -> Settling Dt' Df' Dp' w.
Proof.
  intros H1 H2 H3 [? ? ? ? Ht Hs Hp ? ? ? ? ? ? ?].
  constructor; try assumption.
  - intros H. apply (PendingBy_later _ Dt); auto.
  - intros H. apply (PendingBy_later _ Df); auto.
  - intros H. apply (PendingBy_later _ Dp); auto.
Qed.

(** After [advance] to [t] every pending timer is due later than [t], and
    the clock has not gone back. *)
Lemma advance_drains fuel t w w' :
  advance fuel t w = Some w' ->
  forall tm, In tm (timers w') -> (t < timer_due tm)%Q.
Proof.
  revert w. induction fuel as [|fuel IH]; intros w; cbn.
  - destruct (nextTimer (timers w)) as [x|] eqn:En.
    + destruct (Qle_bool (timer_due x) t) eqn:El; [discriminate|].
      intros [= <-] tm Hin. cbn in Hin.
      pose proof (nextTimer_min _ _ En tm Hin).
      assert (~ (timer_due x <= t)%Q).
      { intros Hc. apply Qle_bool_iff in Hc. congruence. }
      lra.
    + intros [= <-] tm Hin. cbn in Hin.
      apply nextTimer_none in En. rewrite En in Hin. destruct Hin.
  - destruct (nextTimer (timers w)) as [x|] eqn:En.
    + destruct (Qle_bool (timer_due x) t) eqn:El.
      * apply IH.
      * intros [= <-] tm Hin. cbn in Hin.
        pose proof (nextTimer_min _ _ En tm Hin).
        assert (~ (timer_due x <= t)%Q).
        { intros Hc. apply Qle_bool_iff in Hc. congruence. }
        lra.
    + intros [= <-] tm Hin. cbn in Hin.
      apply nextTimer_none in En. rewrite En in Hin. destruct Hin.
Qed.

Lemma fire_clock tm w :
  clock (fire tm w) = laterOf (clock w) (timer_due tm).
Proof.
  open_world w. destruct tm as [id due per act].
  destruct act.
  - destruct per, sLis, sCb as [[]|]; unfold fire, rearm; run_se; reflexivity.
  - destruct (matchCommand (mock_text mock)) as [i k] eqn:Hmc.
    destruct per, sLis, sCb as [[]|], i; unfold fire, rearm;
      run_se; rewrite ?Hmc; run_se; reflexivity.
  - destruct per, resolve, tCb as [[]|], cSt; unfold fire, rearm;
      run_se; reflexivity.
  - destruct per, vAct, speechDetected, vCb as [[]|]; unfold fire, rearm;
      run_se; reflexivity.
  - destruct per, cSt, cRec, sCur, sInt, vInt; unfold fire, rearm;
      run_se; reflexivity.
  - destruct per, cSt; unfold fire, rearm; run_se; reflexivity.
Qed.

Lemma advance_clock fuel t w w' :
  advance fuel t w = Some w' -> (clock w <= clock w')%Q.
Proof.
  revert w. induction fuel as [|fuel IH]; intros w; cbn.
  - destruct (nextTimer (timers w)) as [x|];
      [destruct (Qle_bool (timer_due x) t); [discriminate|]|];
      intros [= <-]; cbn; apply laterOf_l.
  - destruct (nextTimer (timers w)) as [x|].
    + destruct (Qle_bool (timer_due x) t).
      * intros Ha. specialize (IH _ Ha). rewrite fire_clock in IH.
        pose proof (laterOf_l (clock w) (timer_due x)). lra.
      * intros [= <-]. cbn. apply laterOf_l.
    + intros [= <-]. cbn. apply laterOf_l.
Qed.

(** The coordinator's methods take no time on the virtual clock. *)
Lemma initialize_clock w : clock (exec (initialize MockSDK) w) = clock w.
Proof. open_world w. unfold exec. run_se. reflexivity. Qed.

Lemma stopListening_clock w : clock (exec stopListening w) = clock w.
Proof.
  open_world w. destruct cRec, sCur, sInt, vInt, cSt; unfold exec; run_se;
    reflexivity.
Qed.

Lemma stopSpeaking_clock w : clock (exec stopSpeaking w) = clock w.
Proof.
  open_world w. destruct tCur, tCb as [[]|], cSt; unfold exec; run_se;
    reflexivity.
Qed.

Lemma destroy_clock w : clock (exec destroy w) = clock w.
Proof.
  open_world w. destruct sCur, sInt, tCur, tCb as [[]|], vInt;
    unfold exec; run_se; reflexivity.
Qed.

Lemma speakAnalysis_clock text w :
  clock (exec (speakAnalysis text) w) = clock w.
Proof.
  rewrite speakAnalysis_unfold.
  destruct (negb (isInitialized (svc w))).
  { open_world w. unfold exec. run_se. reflexivity. }
  assert (H1 : clock (if stt_isListening (stt w)
                      then exec stopListening w else w) = clock w).
  { destruct (stt_isListening (stt w)); [apply stopListening_clock|];
      reflexivity. }
  rewrite <- H1.
  generalize (if stt_isListening (stt w) then exec stopListening w else w).
  clear. intros w. open_world w.
  destruct tInit, tSpk, tCur, tCb as [[]|], cSt; unfold exec; run_se;
    reflexivity.
Qed.

Lemma startListening_clock r1 r2 w :
  WellFormed w -> unitDraw r1 ->
  clock (exec (startListening r1 r2) w) = clock w.
Proof.
  intros Hwf Hr. rewrite startListening_unfold.
  destruct (negb (isInitialized (svc w))) eqn:Ei.
  { open_world w. unfold exec. run_se. reflexivity. }
  destruct (state_eqb (currentState (svc w)) listening).
  { open_world w. unfold exec. run_se. reflexivity. }
  apply negb_false_iff in Ei.
  destruct (wf_ready w Hwf Ei) as (Hs & _ & Hv & _).
  destruct (unitDraw_picks r1 Hr) as [mock Hp].
  destruct (split_nonempty space (mock_text mock)) as [m Hm].
  clear Hwf. open_world w. cbn in Ei, Hs, Hv. subst cInit sInit vInit.
  destruct cStt as [mid mname lang vadOn silence maxMs].
  destruct tSpk, tCur, tCb as [[]|], vadOn, sLis; unfold exec; run_se;
    rewrite ?(stt_startListening_busy r1 r2) by reflexivity;
    rewrite ?(stt_startListening_closed r1 r2 _ mock m)
      by (reflexivity || assumption);
    run_se; reflexivity.
Qed.

Lemma initialWorld_live : Live initialWorld.
Proof.
  constructor; cbn; try discriminate; try (repeat split; reflexivity);
    try (intros ? ? []); intros ? ? [].
Qed.

Lemma Live_at w c :
  (c <= clock w)%Q ->
  Settling (c + 5000) (c + 3000) (c + 3500) w -> Live w.
Proof.
  intros Hc. unfold Live. apply Settling_later; lra.
Qed.

(** Every reachable world is live. *)
Lemma Reachable_Live w : Reachable w -> Live w.
Proof.
  induction 1 as [|w Hr IH|w r1 r2 Hr IH H1 H2|w Hr IH|w text Hr IH|w Hr IH
                 |w Hr IH|w fuel t w' Hr IH Ha];
    try (pose proof (Reachable_WellFormed w Hr) as Hwf).
  - apply initialWorld_live.
  - apply (Live_at _ (clock w)); [rewrite initialize_clock; lra|].
    apply initialize_settling; assumption.
  - apply (Live_at _ (clock w));
      [rewrite startListening_clock by assumption; lra|].
    apply startListening_settling; try assumption. lra.
  - apply (Live_at _ (clock w)); [rewrite stopListening_clock; lra|].
    apply stopListening_settling; assumption.
  - apply (Live_at _ (clock w)); [rewrite speakAnalysis_clock; lra|].
    apply speakAnalysis_settling; try assumption. lra.
  - apply (Live_at _ (clock w)); [rewrite stopSpeaking_clock; lra|].
    apply stopSpeaking_settling; assumption.
  - apply (Live_at _ (clock w)); [rewrite destroy_clock; lra|].
    apply destroy_settling; assumption.
  - apply (Live_at _ (clock w)); [apply (advance_clock _ _ _ _ Ha)|].
    apply (advance_settling _ _ _ fuel t w w' Hwf IH); [lra | exact Ha].
Qed.







(* ------------------------------------------------------------------ *)
(** ** Time can always pass *)

Arguments firingsLeft : simpl never.
Arguments workLeft : simpl never.

Lemma workLeft_app t a b :
  workLeft t (a ++ b) = workLeft t a + workLeft t b.
Proof. unfold workLeft. rewrite map_app, list_sum_app. reflexivity. Qed.

Lemma workLeft_cons t x l :
  workLeft t (x :: l) = firingsLeft t x + workLeft t l.
Proof. reflexivity. Qed.

Lemma workLeft_nil t : workLeft t [] = 0.
Proof. reflexivity. Qed.

Lemma workLeft_cancel_le t id l : workLeft t (cancel id l) <= workLeft t l.
Proof.
  unfold cancel. induction l as [|x l IH]; [apply Nat.le_refl|].
  cbn [filter]. destruct (negb (timer_id x =? id));
    rewrite ?workLeft_cons; lia.
Qed.

Lemma workLeft_cancel_in t tm l :
  In tm l ->
  workLeft t (cancel (timer_id tm) l) + firingsLeft t tm <= workLeft t l.
Proof.
  unfold cancel. induction l as [|x l IH]; [intros []|].
  intros [->|Hin]; cbn [filter].
  - rewrite Nat.eqb_refl. cbn [negb]. rewrite workLeft_cons.
    pose proof (workLeft_cancel_le t (timer_id tm) l) as H.
    unfold cancel in H. lia.
  - specialize (IH Hin).
    destruct (negb (timer_id x =? timer_id tm)); rewrite ?workLeft_cons; lia.
Qed.

Lemma workLeft_map_le t (f : Timer -> Timer) l :
  (forall y, In y l -> firingsLeft t (f y) <= firingsLeft t y) ->
  workLeft t (map f l) <= workLeft t l.
Proof.
  induction l as [|x l IH]; intros H; [apply Nat.le_refl|].
  cbn [map]. rewrite !workLeft_cons.
  pose proof (H x (or_introl eq_refl)).
  assert (workLeft t (map f l) <= workLeft t l)
    by (apply IH; intros y Hy; apply H; right; exact Hy).
  lia.
Qed.

Lemma workLeft_map_lt t (f : Timer -> Timer) l x :
  In x l ->
  firingsLeft t (f x) < firingsLeft t x ->
  (forall y, In y l -> firingsLeft t (f y) <= firingsLeft t y) ->
  workLeft t (map f l) < workLeft t l.
Proof.
  induction l as [|z l IH]; intros Hin Hlt H; [destruct Hin|].
  cbn [map]. rewrite !workLeft_cons.
  pose proof (H z (or_introl eq_refl)) as Hz.
  assert (Hl : workLeft t (map f l) <= workLeft t l)
    by (apply workLeft_map_le; intros y Hy; apply H; right; exact Hy).
  destruct Hin as [->|Hin].
  - lia.
  - assert (workLeft t (map f l) < workLeft t l)
      by (apply IH; [exact Hin | exact Hlt
                    | intros y Hy; apply H; right; exact Hy]).
    lia.
Qed.

Lemma firingsLeft_in t tm l : In tm l -> firingsLeft t tm <= workLeft t l.
Proof.
  induction l as [|x l IH]; [intros []|].
  intros [->|Hin]; rewrite workLeft_cons; [lia|]. specialize (IH Hin). lia.
Qed.

(** A timer that is due has at least one firing left. *)
Lemma firingsLeft_due t tm :
  (timer_due tm <= t)%Q -> 1 <= firingsLeft t tm.
Proof.
  intros Hd. unfold firingsLeft. apply Qle_bool_iff in Hd.
  destruct (timer_period tm); [rewrite Hd; lia|].
  destruct (isFinalTimer tm); lia.
Qed.

(** Re-arming an interval of period 500 that is due uses up one of its
    firings. *)
Lemma firingsLeft_rearm t id due act act' :
  (due <= t)%Q ->
  firingsLeft t {| timer_id := id; timer_due := (due + 500)%Q;
                   timer_period := Some 500%Q; timer_action := act' |}
  < firingsLeft t {| timer_id := id; timer_due := due;
                     timer_period := Some 500%Q; timer_action := act |}.
Proof.
  intros Hd. unfold firingsLeft. cbn [timer_period timer_due].
  pose proof Hd as Hb. apply Qle_bool_iff in Hb. rewrite Hb.
  destruct (Qle_bool (due + 500) t) eqn:E; [|lia].
  apply Qle_bool_iff in E.
  set (a := ((t - due) / 500)%Q).
  assert (Ha : ((t - (due + 500)) / 500 == a - 1)%Q) by (unfold a; field).
  rewrite (Qfloor_comp _ _ Ha).
  assert (H1 : (1 <= a)%Q).
  { unfold a. apply Qle_shift_div_l; [reflexivity|]. lra. }
  assert (Hf1 : (1 <= Qfloor a)%Z).
  { change 1%Z with (Qfloor (inject_Z 1)) at 1. rewrite Qfloor_Z.
    replace 1%Z with (Qfloor 1) by reflexivity.
    apply Qfloor_resp_le. exact H1. }
  assert (Hfl : Qfloor (a - 1) = (Qfloor a - 1)%Z).
  { apply Qfloor_unique.
    - pose proof (Qfloor_le a).
      replace (Qfloor a - 1)%Z with (Qfloor a + (-1))%Z by lia.
      rewrite inject_Z_plus. change (inject_Z (-1)) with (-1 # 1)%Q. lra.
    - pose proof (Qlt_floor a) as Hlt.
      replace (Qfloor a - 1 + 1)%Z with (Qfloor a) by lia.
      rewrite inject_Z_plus in Hlt. change (inject_Z 1) with 1%Q in Hlt.
      lra. }
  rewrite Hfl. lia.
Qed.

Lemma firingsLeft_timeout t id due act :
  firingsLeft t {| timer_id := id; timer_due := due; timer_period := None;
                   timer_action := act |}
  = if isFinalTimer {| timer_id := id; timer_due := due;
                       timer_period := None; timer_action := act |}
    then 2 else 1.
Proof. reflexivity. Qed.

Ltac run_work :=
  lazy -[cancel Qplus Qmult Qle_bool Qle Qlt laterOf
         cappedDuration wordCount matchCommand toFixed0
         toUpperCase toLowerCase trim intent_name
         String.append split inject_Z Z.of_nat Nat.add Nat.eqb lt
         List.app List.length List.map List.filter In
         isTtsTimer isFinalTimer isPollTimer isRecordingTimer
         isProcessingTimer isInterimTimer workLeft firingsLeft
         mock_delay mock_text
         timer_id timer_due timer_period timer_action];
  repeat (progress cbn [timer_id timer_due timer_period timer_action];
  lazy -[cancel Qplus Qmult Qle_bool Qle Qlt laterOf
         cappedDuration wordCount matchCommand toFixed0
         toUpperCase toLowerCase trim intent_name
         String.append split inject_Z Z.of_nat Nat.add Nat.eqb lt
         List.app List.length List.map List.filter In
         isTtsTimer isFinalTimer isPollTimer isRecordingTimer
         isProcessingTimer isInterimTimer workLeft firingsLeft
         mock_delay mock_text
         timer_id timer_due timer_period timer_action]).

Ltac work_list t l :=
  lazymatch l with
  | cancel ?a ?l' => pose proof (workLeft_cancel_le t a l'); work_list t l'
  | (?a ++ ?b)%list => work_list t a
  | _ => idtac
  end.

(** Goals [workLeft t l' < workLeft t l] after a timeout has fired. *)
Ltac work_solve :=
  rewrite ?workLeft_app, ?workLeft_cons, ?workLeft_nil,
    ?firingsLeft_timeout;
  kinds_unfold;
  match goal with
  | |- context [workLeft ?t (cancel ?a ?l)] => work_list t (cancel a l)
  end;
  lia.

Lemma fire_work t x w :
  WellFormed w ->
  (forall tm p, In tm (timers w) -> timer_period tm = Some p -> p = 500%Q) ->
  In x (timers w) -> (timer_due x <= t)%Q ->
  workLeft t (timers (fire x w)) < workLeft t (timers w).
Proof.
  intros Hwf Hevery Hin Hd.
  pose proof (wf_ids w Hwf) as Hids.
  pose proof (workLeft_cancel_in t x (timers w) Hin) as Hkey.
  pose proof (wf_dues w Hwf x Hin) as [Hck Hper].
  pose proof (wf_final w Hwf x Hin) as Hf.
  clear Hwf. open_world w. cbn [timers clock stt stt_isListening
                                stt_currentTimeout] in *.
  destruct x as [id due per act].
  cbn [timer_id timer_due timer_period] in *.
  unfold fire, rearm.
  cbn [timers clock timer_id timer_due timer_period timer_action set_clock].
  destruct per as [p|].
  - destruct (Hper p eq_refl) as [_ Hispoll].
    pose proof (Hevery _ p Hin eq_refl) as ->.
    destruct act; try discriminate Hispoll. clear Hper Hispoll Hf Hkey.
    destruct vAct, speechDetected, vCb as [[]|]; run_work;
      rewrite ?map_map;
      (eapply workLeft_map_lt;
       [ exact Hin
       | cbn [timer_id timer_due timer_period timer_action];
         rewrite ?Nat.eqb_refl;
         cbn [timer_id timer_due timer_period timer_action];
         rewrite ?Nat.eqb_refl;
         apply firingsLeft_rearm; exact Hd
       | intros y Hy; cbn [timer_id timer_due timer_period timer_action];
         destruct (Nat.eq_dec (timer_id y) id) as [E|E];
         [ pose proof (IdsOK_inj _ _ _ _ Hids Hy Hin E); subst y;
           cbn [timer_id timer_due timer_period timer_action];
           rewrite ?Nat.eqb_refl;
           cbn [timer_id timer_due timer_period timer_action];
           rewrite ?Nat.eqb_refl;
           apply Nat.lt_le_incl, firingsLeft_rearm; exact Hd
         | apply Nat.eqb_neq in E; rewrite ?E;
           cbn [timer_id timer_due timer_period timer_action];
           rewrite ?E; apply Nat.le_refl ] ]).
  - clear Hper. rewrite firingsLeft_timeout in Hkey.
    destruct act.
    + clear Hf. destruct sLis, sCb as [[]|]; run_work; work_solve.
    + destruct (Hf eq_refl) as [-> ->]. clear Hf.
      destruct (matchCommand (mock_text mock)) as [i k] eqn:Hmc.
      destruct sCb as [[]|], i; run_work; rewrite ?Hmc; run_work; work_solve.
    + clear Hf. destruct resolve, tCb as [[]|], cSt; run_work; work_solve.
    + clear Hf.
      destruct vAct, speechDetected, vCb as [[]|]; run_work;
        try (rewrite (map_ext_in _ (fun y => y))
               by (intros y Hy; apply in_cancel in Hy as [_ Hy];
                   cbn [timer_id]; apply Nat.eqb_neq in Hy; rewrite Hy;
                   reflexivity);
             rewrite map_id);
        work_solve.
    + clear Hf. destruct cSt, cRec, sCur, sInt, vInt; run_work; work_solve.
    + clear Hf. destruct cSt; run_work; work_solve.
Qed.

Lemma advance_enough Dt Df Dp fuel t w :
  WellFormed w -> Settling Dt Df Dp w -> (Df + 500 <= Dp)%Q ->
  workLeft t (timers w) <= fuel ->
  exists w', advance fuel t w = Some w'.
Proof.
  intros Hwf Hse HD. revert w Hwf Hse.
  induction fuel as [|fuel IH]; intros w Hwf Hse Hfuel; cbn.
  - destruct (nextTimer (timers w)) as [x|] eqn:En; [|eexists; reflexivity].
    destruct (Qle_bool (timer_due x) t) eqn:El; [|eexists; reflexivity].
    apply Qle_bool_iff in El.
    pose proof (firingsLeft_due t x El).
    pose proof (firingsLeft_in t x _ (nextTimer_in _ _ En)). lia.
  - destruct (nextTimer (timers w)) as [x|] eqn:En; [|eexists; reflexivity].
    destruct (Qle_bool (timer_due x) t) eqn:El; [|eexists; reflexivity].
    apply Qle_bool_iff in El.
    apply IH; [apply fire_wf | apply fire_settling|]; try assumption.
    pose proof (fire_work t x w Hwf
                  (fun tm p => se_period _ _ _ _ Hse tm p)
                  (nextTimer_in _ _ En) El).
    lia.
Qed.

Lemma advance_more_fuel n m t w w' :
  advance n t w = Some w' -> n <= m -> advance m t w = Some w'.
Proof.
  revert m w. induction n as [|n IH]; intros m w; cbn.
  - destruct (nextTimer (timers w)) as [x|] eqn:En.
    + destruct (Qle_bool (timer_due x) t) eqn:El; [discriminate|].
      intros H _. destruct m; cbn; rewrite En, El; exact H.
    + intros H _. destruct m; cbn; rewrite En; exact H.
  - destruct (nextTimer (timers w)) as [x|] eqn:En.
    + destruct (Qle_bool (timer_due x) t) eqn:El.
      * intros H Hle. destruct m as [|m]; [lia|]. cbn. rewrite En, El.
        apply IH; [exact H | lia].
      * intros H _. destruct m; cbn; rewrite En, El; exact H.
    + intros H _. destruct m; cbn; rewrite En; exact H.
Qed.

(** X15. Time can always pass.  In every reachable world and for every
    instant [t], only finitely many timers fire up to [t]: with
    [workLeft t] firings allowed (or more) the event loop reaches [t].  The
    world it reaches is reachable, has no timer left that is due by [t],
    and its clock has not gone back. *)
Theorem time_can_always_pass (w : World) (t : Q) :
  Reachable w ->
  exists w',
    advance (workLeft t (timers w)) t w = Some w'
    /\ (forall fuel, workLeft t (timers w) <= fuel ->
                     advance fuel t w = Some w')
    /\ Reachable w'
    /\ (forall tm, In tm (timers w') -> (t < timer_due tm)%Q)
    /\ (clock w <= clock w')%Q.
Proof.
  intros Hr.
  destruct (advance_enough _ _ _ (workLeft t (timers w)) t w
              (Reachable_WellFormed w Hr) (Reachable_Live w Hr)
              ltac:(lra) (Nat.le_refl _)) as [w' Ha].
  exists w'. split; [exact Ha|].
  split; [intros fuel Hle; apply (advance_more_fuel _ _ _ _ _ Ha Hle)|].
  split; [apply (reach_advance w _ t w' Hr Ha)|].
  split; [apply (advance_drains _ _ _ _ Ha) | apply (advance_clock _ _ _ _ Ha)].
Qed.

Lemma time_can_always_pass_witness :
  exists w', advance (workLeft 40000 (timers listeningWorld)) 40000
                     listeningWorld = Some w'.
Proof.
  destruct (time_can_always_pass listeningWorld 40000 listeningWorld_reachable)
    as (w' & Ha & _).
  exists w'. exact Ha.
Defined.




(* ------------------------------------------------------------------ *)
(** ** Confidences of one call, and silence *)

(** X17. Within the timers of one [WhisperSTT.startListening()] call the
    confidence attached to word [i] does not decrease with [i], and the
    final confidence (for a draw [r >= 0]) is at least every interim
    one. *)
Theorem confidence_order_in_one_call (i j n : nat) (r : Q) :
  i <= j -> j < n -> (0 <= r)%Q ->
  (interimConfidence i n <= interimConfidence j n)%Q
  /\ (interimConfidence j n <= finalConfidence r)%Q.
Proof.
  intros Hij Hjn Hr. split.
  - apply interimConfidence_monotone; lia.
  - apply finalConfidence_above; [lia | lia | exact Hr].
Qed.

Lemma confidence_order_in_one_call_witness :
  (interimConfidence 1 4 <= interimConfidence 3 4)%Q
  /\ (interimConfidence 3 4 <= finalConfidence 0)%Q.
Proof.
  apply (confidence_order_in_one_call 1 3 4 0); [lia | lia | discriminate].
Defined.

(** X18. Silence does not end a session.  [triggerSilence()] only calls
    the registered detector callback, and the coordinator's callback only
    logs: when the state is [listening] one thought "VAD: Silence
    detected, processing..." is added, otherwise none; the state, the
    engines and the timers are left as they were, so the speech engine goes
    on listening. *)
Theorem triggerSilence_only_logs (w : World) :
  vad_onVAD (vad w) = Some VoiceService_onVAD ->
  vad_triggerSilence w
  = (Ok tt,
     set_log
       (log w
        ++ (clock w, ev_vadCallback false)
           :: (if state_eqb (currentState (svc w)) listening
               then [(clock w,
                      ev_thought "VAD: Silence detected, processing..."
                                 th_info)]
               else []))%list w).
Proof.
  intros Hcb. open_world w. cbn in Hcb. subst vCb.
  destruct cSt; run_se; rewrite <- ?app_assoc; reflexivity.
Qed.

Lemma triggerSilence_only_logs_witness :
  stt_isListening (stt (exec vad_triggerSilence listeningWorld)) = true
  /\ currentState (svc (exec vad_triggerSilence listeningWorld)) = listening
  /\ timers (exec vad_triggerSilence listeningWorld) = timers listeningWorld.
Proof.
  assert (Hcb : vad_onVAD (vad listeningWorld) = Some VoiceService_onVAD)
    by (vm_compute; reflexivity).
  unfold exec. rewrite (triggerSilence_only_logs listeningWorld Hcb).
  cbn [snd]. repeat split; vm_compute; reflexivity.
Defined.

(* ------------------------------------------------------------------ *)
(** ** Speaking lasts its duration *)








